(** * SQL generation from query-builder trees

    A shallow embedding of [generate_sql.py]: the class [SQLGenerator] with
    [format_value], [process_rule], [process_group] and [generate_sql], and
    the properties of the generated SQL text. *)

From Stdlib Require Import ZArith String Ascii List Bool Lia DecimalString
  DecimalZ.
Import ListNotations.
Open Scope string_scope.
Set Warnings "-register-all".

(** ** Python values

    The values that [json.load] puts under the keys ["value"] and
    ["valueType"] of a rule: [None], the scalars (booleans, integers, floats,
    strings) and lists of these.  A float is kept as the text [str()] gives
    for it, which is all the generator looks at.  Strings are byte strings (UTF-8); the
    generator concatenates them, doubles the ASCII quote and drops a first
    and a last character. *)

Inductive atom : Type :=
| ABool (b : bool)
| AInt (n : Z)
| AFloat (text : string)
| AStr (s : string).

Inductive pyval : Type :=
| VNone
| VAtom (a : atom)
| VList (items : list pyval).

Definition VBool (b : bool) : pyval := VAtom (ABool b).
Definition VInt (n : Z) : pyval := VAtom (AInt n).
Definition VFloat (text : string) : pyval := VAtom (AFloat text).
Definition VStr (s : string) : pyval := VAtom (AStr s).

(** The exceptions the generator lets escape. *)
Inductive exn : Type :=
| KeyError (key : string)
| IndexError
| ValueError (msg : string).

Inductive result (A : Type) : Type :=
| Ok (a : A)
| Raise (e : exn).
Arguments Ok {A} a.
Arguments Raise {A} e.

Definition bind {A B} (m : result A) (k : A -> result B) : result B :=
  match m with
  | Ok a => k a
  | Raise e => Raise e
  end.

Notation "x <- m ;; k" := (bind m (fun x => k))
  (at level 61, m at next level, right associativity).

Definition raises {A} (m : result A) : Prop := exists e, m = Raise e.

(** [d[key]] on a dict whose key may be missing. *)
Definition subscript {A} (key : string) (entry : option A) : result A :=
  match entry with
  | Some a => Ok a
  | None => Raise (KeyError key)
  end.

(** [d.get(key, default)]. *)
Definition get_default {A} (entry : option A) (default : A) : A :=
  match entry with
  | Some a => a
  | None => default
  end.

(** Left-to-right evaluation of a comprehension whose body may raise. *)
Definition mapM {A B} (f : A -> result B) : list A -> result (list B) :=
  fix go (l : list A) : result (list B) :=
    match l with
    | [] => Ok []
    | a :: rest => b <- f a ;; bs <- go rest ;; Ok (b :: bs)
    end.

(** ** Built-ins *)

Definition quote : ascii := "'"%char.

(** [s.replace(old, new)] for a pattern [old] of one character. *)
Fixpoint str_replace (old : ascii) (new : string) (s : string) : string :=
  match s with
  | EmptyString => EmptyString
  | String c rest =>
      if Ascii.eqb c old then new ++ str_replace old new rest
      else String c (str_replace old new rest)
  end.

(** [sep.join(parts)]. *)
Definition str_join (sep : string) (parts : list string) : string :=
  String.concat sep parts.

(** [s[:-1]]. *)
Fixpoint drop_last (s : string) : string :=
  match s with
  | EmptyString => EmptyString
  | String c EmptyString => EmptyString
  | String c rest => String c (drop_last rest)
  end.

(** [s[1:-1]]. *)
Definition slice_1_m1 (s : string) : string :=
  match s with
  | EmptyString => EmptyString
  | String _ rest => drop_last rest
  end.

(** The decimal text of an int: what [str(n)] gives when it returns. *)
Definition str_int (n : Z) : string := NilZero.string_of_int (Z.to_int n).

(** [sys.get_int_max_str_digits()], as the interpreter starts. *)
Definition int_max_str_digits : nat := 4300.

(** The number of decimal digits of [n], the sign left out. *)
Definition int_digits (n : Z) : nat := String.length (str_int (Z.abs n)).

Definition int_limit_message : string :=
  "Exceeds the limit (4300 digits) for integer string conversion; use sys.set_int_max_str_digits() to increase the limit".

(** [str(n)] for an int of any size: the conversion of an int of more
    digits than the limit raises ValueError. *)
Definition str_of_int (n : Z) : result string :=
  if (int_digits n <=? int_max_str_digits)%nat then Ok (str_int n)
  else Raise (ValueError int_limit_message).

(** [str(value)], also what an f-string puts for [{value}]. *)
Definition py_str (value : atom) : result string :=
  match value with
  | ABool true => Ok "True"
  | ABool false => Ok "False"
  | AInt n => str_of_int n
  | AFloat text => Ok text
  | AStr s => Ok s
  end.

(** [value == "literal"]. *)
Definition eq_str (value : pyval) (literal : string) : bool :=
  match value with
  | VAtom (AStr s) => String.eqb s literal
  | _ => false
  end.

Definition is_str (value : atom) : bool :=
  match value with AStr _ => true | _ => false end.

(** [isinstance(value, (int, float))]: [bool] is a subclass of [int]. *)
Definition is_int_or_float (value : atom) : bool :=
  match value with ABool _ | AInt _ | AFloat _ => true | AStr _ => false end.

Definition is_bool (value : atom) : bool :=
  match value with ABool _ => true | _ => false end.

(** Truth value of [value] in a condition; the two zero floats print as
    [0.0] and [-0.0]. *)
Definition truthy (value : atom) : bool :=
  match value with
  | ABool b => b
  | AInt n => negb (Z.eqb n 0)
  | AFloat text => negb (String.eqb text "0.0" || String.eqb text "-0.0")
  | AStr s => negb (String.eqb s "")
  end.

(** [x[0] if isinstance(x, list) else x]. *)
Definition first_if_list (x : pyval) : result pyval :=
  match x with
  | VList [] => Raise IndexError
  | VList (x0 :: _) => Ok x0
  | _ => Ok x
  end.

(** ** SQLGenerator *)

Definition OPERATOR_MAPPING (operator : string) : option string :=
  if String.eqb operator "equal" then Some "="
  else if String.eqb operator "not_equal" then Some "!="
  else if String.eqb operator "less" then Some "<"
  else if String.eqb operator "less_or_equal" then Some "<="
  else if String.eqb operator "greater" then Some ">"
  else if String.eqb operator "greater_or_equal" then Some ">="
  else if String.eqb operator "like" then Some "LIKE"
  else if String.eqb operator "not_like" then Some "NOT LIKE"
  else if String.eqb operator "starts_with" then Some "LIKE"
  else if String.eqb operator "ends_with" then Some "LIKE"
  else if String.eqb operator "between" then Some "BETWEEN"
  else if String.eqb operator "not_between" then Some "NOT BETWEEN"
  else if String.eqb operator "is_null" then Some "IS NULL"
  else if String.eqb operator "is_not_null" then Some "IS NOT NULL"
  else if String.eqb operator "is_empty" then Some "= ''"
  else if String.eqb operator "is_not_empty" then Some "!= ''"
  else if String.eqb operator "in" then Some "IN"
  else if String.eqb operator "not_in" then Some "NOT IN"
  else if String.eqb operator "AND" then Some "AND"
  else if String.eqb operator "OR" then Some "OR"
  else None.

(** [self.OPERATOR_MAPPING[operator]]. *)
Definition operator_sql (operator : string) : result string :=
  subscript operator (OPERATOR_MAPPING operator).

(** The quoted form used by the string case and by the fallback. *)
Definition quoted (s : string) : string :=
  "'" ++ str_replace quote "''" s ++ "'".

(** The part of [format_value] after the list case: [value] is not [None]
    and not a list. *)
Definition format_scalar (value : atom) (value_type : pyval)
  : result string :=
  let effective_type :=
    match value_type with
    | VList [t] => t
    | _ => value_type
    end in
  if eq_str effective_type "string" || is_str value then
    text <- py_str value ;;
    Ok (quoted text)
  else if eq_str effective_type "number" || is_int_or_float value then
    py_str value
  else if eq_str effective_type "boolean" || is_bool value then
    Ok (if truthy value then "TRUE" else "FALSE")
  else if eq_str effective_type "date" || eq_str effective_type "datetime" then
    text <- py_str value ;;
    Ok ("DATE '" ++ text ++ "'")
  else if eq_str effective_type "time" then
    text <- py_str value ;;
    Ok ("'" ++ text ++ "'")
  else
    text <- py_str value ;;
    Ok (quoted text).

Fixpoint format_value (value value_type : pyval) : result string :=
  match value with
  | VNone => Ok "NULL"
  | VList [v] =>
      t <- first_if_list value_type ;;
      format_value v t
  | VList items =>
      parts <- mapM (fun v => format_value v VNone) items ;;
      Ok ("(" ++ str_join ", " parts ++ ")")
  | VAtom a => format_scalar a value_type
  end.

(** ** Query trees

    A node is a dict; a key that may be missing is an [option].  The keys
    of ["properties"] are those of a rule and of a group together.
    [children] is the key the data model documents for the children of a
    group, [children1] the key the generator reads.

    The recursion limit of the interpreter is not modelled: on a tree, or
    on a value, nested deeper than its stack allows, Python raises
    RecursionError where the functions below go on. *)

Record properties : Type := mkProperties {
  field : option string;
  operator : option string;
  value : option pyval;
  valueType : option pyval;
  conjunction : option string;
  not_ : option bool
}.

Inductive node : Type := mkNode {
  type : option string;
  props : option properties;
  children : option (list node);
  children1 : option (list node)
}.

(** The dict [{}]. *)
Definition no_properties : properties :=
  mkProperties None None None None None None.

Definition operator_in (operator : string) (names : list string) : bool :=
  existsb (String.eqb operator) names.

(** [between_values] is the test of the BETWEEN case together with
    [value[0]] and [value[1]]: the operator is one of the two and the
    value is a list of two elements or more. *)
Definition process_rule (rule : node) : result string :=
  props <- subscript "properties" (props rule) ;;
  operator <- subscript "operator" (operator props) ;;
  field <- subscript "field" (field props) ;;
  if operator_in operator ["is_null"; "is_not_null"] then
    op <- operator_sql operator ;;
    Ok (field ++ " " ++ op)
  else if operator_in operator ["is_empty"; "is_not_empty"] then
    op <- operator_sql operator ;;
    Ok (field ++ " " ++ op)
  else
    value <- subscript "value" (value props) ;;
    let value_type := get_default (valueType props) VNone in
    let between_values :=
      if operator_in operator ["between"; "not_between"] then
        match value with
        | VList (low :: high :: _) => Some (low, high)
        | _ => None
        end
      else None in
    match between_values with
    | Some (low, high) =>
        low_type <- first_if_list value_type ;;
        low_val <- format_value low low_type ;;
        high_type <- first_if_list value_type ;;
        high_val <- format_value high high_type ;;
        op <- operator_sql operator ;;
        Ok (field ++ " " ++ op ++ " " ++ low_val ++ " AND " ++ high_val)
    | None =>
        if operator_in operator ["in"; "not_in"] then
          formatted_values <- format_value value value_type ;;
          op <- operator_sql operator ;;
          Ok (field ++ " " ++ op ++ " " ++ formatted_values)
        else if String.eqb operator "starts_with" then
          v <- first_if_list value ;;
          t <- first_if_list value_type ;;
          formatted_value <- format_value v t ;;
          let inner_value := slice_1_m1 formatted_value ++ "%" in
          Ok (field ++ " LIKE '" ++ inner_value ++ "'")
        else if String.eqb operator "ends_with" then
          v <- first_if_list value ;;
          t <- first_if_list value_type ;;
          formatted_value <- format_value v t ;;
          let inner_value := "%" ++ slice_1_m1 formatted_value in
          Ok (field ++ " LIKE '" ++ inner_value ++ "'")
        else
          v <- first_if_list value ;;
          t <- first_if_list value_type ;;
          formatted_value <- format_value v t ;;
          op <- operator_sql operator ;;
          Ok (field ++ " " ++ op ++ " " ++ formatted_value)
    end.

(** The [for child in children] loop of [process_group]; [conditions] is
    the list the loop appends to, [recur] the recursive call. *)
Definition collect_conditions (recur : node -> result string)
  : list node -> list string -> result (list string) :=
  fix loop (children : list node) (conditions : list string) :=
    match children with
    | [] => Ok conditions
    | child :: rest =>
        child_type <- subscript "type" (type child) ;;
        if String.eqb child_type "rule" then
          condition <- process_rule child ;;
          loop rest (conditions ++ [condition])%list
        else if String.eqb child_type "group" then
          condition <- recur child ;;
          loop rest (conditions ++ [condition])%list
        else loop rest conditions
    end.

(** The end of [process_group], from the join on. *)
Definition finish_group (conjunction : string) (negate : bool)
    (conditions : list string) : string :=
  let joined_conditions := str_join (" " ++ conjunction ++ " ") conditions in
  let joined_conditions :=
    if (1 <? List.length conditions)%nat then "(" ++ joined_conditions ++ ")"
    else joined_conditions in
  if negate then "NOT " ++ joined_conditions else joined_conditions.

(** [not children]. *)
Definition is_empty {A} (l : list A) : bool :=
  match l with [] => true | _ => false end.

(** [group.get("children1", [])] is matched on the key itself: a missing
    key gives the empty list, for which the function returns at once. *)
Fixpoint process_group (group : node) : result string :=
  let props := get_default (props group) no_properties in
  let conjunction := get_default (conjunction props) "AND" in
  let negate := get_default (not_ props) false in
  match children1 group with
  | None => Ok "TRUE"
  | Some children =>
      if is_empty children then Ok "TRUE"
      else
        conditions <- collect_conditions process_group children [] ;;
        Ok (finish_group conjunction negate conditions)
  end.

Definition generate_sql (query_tree : node) : result string :=
  node_type <- subscript "type" (type query_tree) ;;
  if String.eqb node_type "group" then process_group query_tree
  else if String.eqb node_type "rule" then process_rule query_tree
  else Raise (ValueError ("Unknown node type: " ++ node_type)).

(** ** Notions used to state the properties *)

(** Number of single quotes in a string. *)
Fixpoint count_quotes (s : string) : nat :=
  match s with
  | EmptyString => 0
  | String c rest =>
      (if Ascii.eqb c quote then 1 else 0) + count_quotes rest
  end.

(** Reading the body of a SQL string literal: a doubled quote stands for
    one quote, a quote alone does not occur. *)
Fixpoint collapse_quotes (s : string) : option string :=
  match s with
  | EmptyString => Some EmptyString
  | String c rest =>
      if Ascii.eqb c quote then
        match rest with
        | String c' rest' =>
            if Ascii.eqb c' quote
            then option_map (String quote) (collapse_quotes rest')
            else None
        | EmptyString => None
        end
      else option_map (String c) (collapse_quotes rest)
  end.

(** Reading a SQL string literal: the outer quotes are stripped and the
    body is read with [collapse_quotes]. *)
Definition sql_unquote (literal : string) : option string :=
  match literal with
  | String c rest =>
      if Ascii.eqb c quote && (1 <=? String.length rest)%nat
         && String.eqb (substring (String.length rest - 1) 1 rest) "'"
      then collapse_quotes (drop_last rest)
      else None
  | EmptyString => None
  end.

(** The 18 operators of the query builder. *)
Definition fixed_operators : list string :=
  ["equal"; "not_equal"; "less"; "less_or_equal"; "greater";
   "greater_or_equal"; "like"; "not_like"; "starts_with"; "ends_with";
   "between"; "not_between"; "is_null"; "is_not_null"; "is_empty";
   "is_not_empty"; "in"; "not_in"].

(** A child that the loop of [process_group] compiles: its type is
    ["rule"] or ["group"]. *)
Definition recognised (child : node) : bool :=
  match type child with
  | Some t => String.eqb t "rule" || String.eqb t "group"
  | None => false
  end.

Definition has_type (child : node) : Prop := type child <> None.

Definition is_rule (child : node) : bool :=
  match type child with
  | Some t => String.eqb t "rule"
  | None => false
  end.

(** What the loop appends for a recognised child. *)
Definition compile_child (child : node) : result string :=
  if is_rule child then process_rule child else process_group child.

(** [children] compile, in order, to [conditions]. *)
Definition compile_to (children : list node) (conditions : list string)
  : Prop :=
  Forall2 (fun child condition => compile_child child = Ok condition)
          (filter recognised children) conditions.

(** The group with ["not"] set to [negate], the rest as it is. *)
Definition set_not (negate : bool) (group : node) : node :=
  let p := get_default (props group) no_properties in
  mkNode (type group)
         (Some (mkProperties (field p) (operator p) (value p) (valueType p)
                             (conjunction p) (Some negate)))
         (children group) (children1 group).

(** The properties that a missing ["properties"] key stands for. *)
Definition default_properties : properties :=
  mkProperties None None None None (Some "AND") (Some false).

(** The conjunction and the prefix a group is rendered with. *)
Definition group_conjunction (group : node) : string :=
  get_default (conjunction (get_default (props group) no_properties)) "AND".

Definition group_prefix (group : node) : string :=
  if get_default (not_ (get_default (props group) no_properties)) false
  then "NOT " else "".

(** Whether the character [c] occurs in [s]. *)
Fixpoint contains (c : ascii) (s : string) : bool :=
  match s with
  | EmptyString => false
  | String a rest => Ascii.eqb a c || contains c rest
  end.

(** [isinstance(value, list)]. *)
Definition is_list (value : pyval) : bool :=
  match value with VList _ => true | _ => false end.

(** Nodes of the examples. *)
Definition rule_node (field operator : string) (value : option pyval)
  : node :=
  mkNode (Some "rule")
         (Some (mkProperties (Some field) (Some operator) value None
                             None None))
         None None.

Definition group_node (p : option properties) (children1 : list node)
  : node :=
  mkNode (Some "group") p None (Some children1).

(** ** Parameters of a query

    The state of a [SQLGenerator]: the flag given to [__init__], the list
    [params] and the counter [param_index]. *)

Record generator : Type := mkGenerator {
  use_params : bool;
  params : list pyval;
  param_index : Z
}.

(** [SQLGenerator(use_params)]. *)
Definition init (use_params : bool) : generator :=
  mkGenerator use_params [] 0.

(** [self.add_param(value)]: the state after the call and the
    placeholder returned. *)
Definition add_param (self : generator) (value : pyval)
  : generator * string :=
  let self :=
    mkGenerator (use_params self) (params self) (param_index self + 1) in
  let self :=
    mkGenerator (use_params self) (params self ++ [value])%list
                (param_index self) in
  (self, "$" ++ str_int (param_index self)).

(** [self.generate_sql(query_tree)] with the state it leaves: the
    parameters are reset, and nothing on the way to [format_value] calls
    [add_param] or reads [use_params]. *)
Definition generate_sql_method (self : generator) (query_tree : node)
  : generator * result string :=
  let self := mkGenerator (use_params self) [] (param_index self) in
  let self := mkGenerator (use_params self) (params self) 0 in
  (self, generate_sql query_tree).

(** [add_param] called on each of [values] in turn: the last state and the
    placeholders in the order of the calls. *)
Fixpoint add_params (self : generator) (values : list pyval)
  : generator * list string :=
  match values with
  | [] => (self, [])
  | value :: rest =>
      let (self, placeholder) := add_param self value in
      let (self, placeholders) := add_params self rest in
      (self, placeholder :: placeholders)
  end.

(** The counter counts the parameters. *)
Definition counted (self : generator) : Prop :=
  param_index self = Z.of_nat (List.length (params self)).

(** The node with [children1] replaced. *)
Definition with_children1 (group : node) (kept : list node) : node :=
  mkNode (type group) (props group) (children group) (Some kept).

(** The group of the one child [child], with no properties. *)
Definition singleton_group (child : node) : node :=
  mkNode (Some "group") None None (Some [child]).

(** The operators rendered by the last case of [process_rule]. *)
Definition binary_operators : list string :=
  ["equal"; "not_equal"; "less"; "less_or_equal"; "greater";
   "greater_or_equal"; "like"; "not_like"].

(** The effective type of [format_value]: a declared type of one element
    stands for that element. *)
Definition effective_type (value_type : pyval) : pyval :=
  match value_type with
  | VList [t] => t
  | _ => value_type
  end.

(** The states of a generator: made by [SQLGenerator(...)], then changed
    by calls of [add_param] and of [generate_sql]. *)
Inductive reachable : generator -> Prop :=
| reach_init (flag : bool) : reachable (init flag)
| reach_add_param (self : generator) (value : pyval) :
    reachable self -> reachable (fst (add_param self value))
| reach_generate_sql (self : generator) (query_tree : node) :
    reachable self -> reachable (fst (generate_sql_method self query_tree)).

(** The placeholder of the parameter number [i]. *)
Definition placeholder (i : nat) : string := "$" ++ str_int (Z.of_nat i).

(** ** The schema validator

    [validate_json.py].  The files and the [jsonschema] library are
    outside the program: what reading a file gives, what
    [jsonschema.validate] answers and what [get_json_files] finds are
    arguments of the functions that use them.  A logger is the list of
    the records written to it, without the time stamp. *)

Module validate_json.

(** What [open] and [json.load] do with a path: the parsed document, a
    [json.JSONDecodeError] or another exception, each with its [str()]. *)
Inductive file_read (document : Type) : Type :=
| Parsed (json_data : document)
| JSONDecodeError (text : string)
| OtherError (text : string).
Arguments Parsed {document} json_data.
Arguments JSONDecodeError {document} text.
Arguments OtherError {document} text.

(** An element of [e.absolute_path]: a key or an index. *)
Inductive path_item : Type :=
| Key (name : string)
| Index (i : Z).

(** What [jsonschema.validate] does: it returns, or raises a
    [ValidationError] with its path and message, or raises something
    else. *)
Inductive validation : Type :=
| Valid
| ValidationError (absolute_path : list path_item) (message : string)
| Unexpected (text : string).

Inductive log_record : Type :=
| INFO (message : string)
| WARNING (message : string)
| ERROR (message : string).

(** What [load_json_file] does: it returns the document or raises a
    ValueError, with its message; it lets no other exception through. *)
Inductive loaded (document : Type) : Type :=
| Loaded (json_data : document)
| ValueErrorRaised (text : string).
Arguments Loaded {document} json_data.
Arguments ValueErrorRaised {document} text.

Definition load_json_file {document} (read : string -> file_read document)
    (file_path : string) : loaded document :=
  match read file_path with
  | Parsed json_data => Loaded json_data
  | JSONDecodeError text =>
      ValueErrorRaised ("Invalid JSON in " ++ file_path ++ ": " ++ text)
  | OtherError text =>
      ValueErrorRaised ("Failed to load " ++ file_path ++ ": " ++ text)
  end.

(** [str(p)] for an element of the path. *)
Definition str_item (p : path_item) : string :=
  match p with
  | Key name => name
  | Index i => str_int i
  end.

(** The place named in the record of a validation error. *)
Definition error_place (absolute_path : list path_item) : string :=
  let path := str_join "/" (map str_item absolute_path) in
  if String.eqb path "" then "(root level)"
  else "at path '" ++ path ++ "'".

(** The records logged and the boolean returned;
    [outcome] is what [jsonschema.validate] did on the data and the
    schema. *)
Definition validate_json_against_schema (outcome : validation)
    (file_path : string) : list log_record * bool :=
  match outcome with
  | Valid => ([INFO ("Validation successful: " ++ file_path)], true)
  | ValidationError absolute_path message =>
      ([ERROR ("Validation error in " ++ file_path ++ " "
               ++ error_place absolute_path ++ ": " ++ message)], false)
  | Unexpected text =>
      ([ERROR ("Unexpected error validating " ++ file_path ++ ": " ++ text)],
       false)
  end.

(** The loop of [main] over the files, from the counts and the log it
    starts with: the log and the two counts at its end. *)
Fixpoint validate_files {document} (read : string -> file_read document)
    (validate : document -> validation) (json_files : list string)
    (valid_count error_count : nat) (log : list log_record)
  : list log_record * (nat * nat) :=
  match json_files with
  | [] => (log, (valid_count, error_count))
  | file_path :: rest =>
      let log := (log ++ [INFO ("Validating " ++ file_path)])%list in
      match load_json_file read file_path with
      | Loaded json_data =>
          let (records, ok) :=
            validate_json_against_schema (validate json_data) file_path in
          let log := (log ++ records)%list in
          if ok
          then validate_files read validate rest (valid_count + 1)
                              error_count log
          else validate_files read validate rest valid_count
                              (error_count + 1) log
      | ValueErrorRaised text =>
          validate_files read validate rest valid_count (error_count + 1)
                         (log ++ [ERROR text])%list
      end
  end.

(** The last record of a run that validated files. *)
Definition summary (valid_count error_count : nat) : log_record :=
  INFO ("Validation complete. " ++ str_int (Z.of_nat valid_count)
        ++ " valid file(s), " ++ str_int (Z.of_nat error_count)
        ++ " file(s) with errors").

(** [main] after the arguments are parsed: the records it logs.
    [validate schema json_data] is [jsonschema.validate] on the two. *)
Definition main {document} (read : string -> file_read document)
    (validate : document -> document -> validation)
    (get_json_files : string -> list string)
    (source_path schema_path : string) : list log_record :=
  let log := [INFO "Starting JSON validation";
              INFO ("Source path: " ++ source_path);
              INFO ("Schema path: " ++ schema_path)] in
  match load_json_file read schema_path with
  | ValueErrorRaised text =>
      (log ++ [ERROR ("An error occurred: " ++ text)])%list
  | Loaded schema =>
      let log :=
        (log ++ [INFO ("Successfully loaded schema from " ++ schema_path)])
          %list in
      let json_files := get_json_files source_path in
      if is_empty json_files then
        (log ++ [WARNING ("No JSON files found at " ++ source_path)])%list
      else
        let log :=
          (log ++ [INFO ("Found " ++ str_int (Z.of_nat (List.length json_files))
                         ++ " JSON file(s) to validate")])%list in
        let (log, counts) :=
          validate_files read (validate schema) json_files 0 0 log in
        let (valid_count, error_count) := counts in
        (log ++ [summary valid_count error_count])%list
  end.

(** A file that is read and is valid for the schema. *)
Definition passes {document} (read : string -> file_read document)
    (validate : document -> validation) (file_path : string) : bool :=
  match read file_path with
  | Parsed json_data =>
      match validate json_data with Valid => true | _ => false end
  | _ => false
  end.

End validate_json.

(** [parts] written one after the other, [sep] between two of them:
    the first part, then each other part behind [sep]. *)
Fixpoint prefixed (sep : string) (parts : list string) : string :=
  match parts with
  | [] => ""
  | part :: rest => sep ++ part ++ prefixed sep rest
  end.

Definition separated (sep : string) (parts : list string) : string :=
  match parts with
  | [] => ""
  | first :: rest => first ++ prefixed sep rest
  end.

(** An int that [str()] converts: no more digits than the limit. *)
Definition atom_in_range (a : atom) : bool :=
  match a with
  | AInt n => (int_digits n <=? int_max_str_digits)%nat
  | _ => true
  end.

(** A scalar of the data model, null included, that [str()] converts. *)
Definition scalar_in_range (v : pyval) : bool :=
  match v with
  | VNone => true
  | VAtom a => atom_in_range a
  | VList _ => false
  end.

(** A value of the data model: such a scalar or a list of such scalars. *)
Definition flat_in_range (v : pyval) : bool :=
  match v with
  | VList items => forallb scalar_in_range items
  | _ => scalar_in_range v
  end.

(** The text of a scalar: [str()] of it when it is in range. *)
Definition atom_text (a : atom) : string :=
  match a with
  | ABool true => "True"
  | ABool false => "False"
  | AInt n => str_int n
  | AFloat text => text
  | AStr s => s
  end.

(** The literal of a scalar, or of null, that has no declared type. *)
Definition untyped_literal (item : option atom) : string :=
  match item with
  | None => "NULL"
  | Some (AStr s) => quoted s
  | Some a => atom_text a
  end.

(** The value that holds the scalar, [None] for null. *)
Definition item_value (item : option atom) : pyval :=
  match item with
  | None => VNone
  | Some a => VAtom a
  end.

(** The exceptions that the compilers raise by themselves. *)
Definition compiler_exn (e : exn) : Prop :=
  e = IndexError \/ (exists key, e = KeyError key) \/
  e = ValueError int_limit_message.

(** The int written 1 and 4300 zeros, [10 ** 4300]: the least int that
    has more digits than the limit. *)
Definition ten_pow_4300 : Z :=
  Z.of_int (Decimal.Pos (Decimal.D1 (Nat.iter 4300 Decimal.D0 Decimal.Nil))).

(** The exceptions of a missing key and of a missing element. *)
Definition key_or_index (e : exn) : Prop :=
  e = IndexError \/ exists key, e = KeyError key.

(** ** Properties of the built-ins *)

Lemma bind_ok {A B} (m : result A) (k : A -> result B) (b : B) :
  bind m k = Ok b -> exists a, m = Ok a /\ k a = Ok b.
Proof.
  destruct m as [a|e]; simpl; intros H; [exists a; auto | discriminate].
Qed.

Lemma drop_last_snoc (s : string) (c : ascii) :
  drop_last (s ++ String c "") = s.
Proof.
  induction s as [|a s IH]; simpl; [reflexivity|].
  rewrite IH. destruct s; reflexivity.
Qed.

Lemma slice_quoted (body : string) : slice_1_m1 ("'" ++ body ++ "'") = body.
Proof. simpl. apply drop_last_snoc. Qed.

Lemma count_quotes_replace (s : string) :
  count_quotes (str_replace quote "''" s) = 2 * count_quotes s.
Proof.
  induction s as [|c s IH]; simpl; [reflexivity|].
  destruct (Ascii.eqb c quote) eqn:E; simpl; rewrite ?E, IH; lia.
Qed.

Lemma collapse_quotes_replace (s : string) :
  collapse_quotes (str_replace quote "''" s) = Some s.
Proof.
  induction s as [|c s IH]; simpl; [reflexivity|].
  destruct (Ascii.eqb c quote) eqn:E; simpl.
  - rewrite IH. simpl. apply Ascii.eqb_eq in E. subst. reflexivity.
  - rewrite E, IH. reflexivity.
Qed.

Lemma length_snoc (s : string) (c : ascii) :
  String.length (s ++ String c "") = S (String.length s).
Proof. induction s; simpl; congruence. Qed.

Lemma substring_last (s : string) (c : ascii) :
  substring (String.length s) 1 (s ++ String c "") = String c "".
Proof. induction s; simpl; auto. Qed.

Lemma sql_unquote_quoted (s : string) : sql_unquote (quoted s) = Some s.
Proof.
  unfold quoted, sql_unquote. simpl.
  rewrite length_snoc. simpl. rewrite Nat.sub_0_r, substring_last. simpl.
  rewrite drop_last_snoc. apply collapse_quotes_replace.
Qed.

(** ** The examples of the documentation *)

Example greater_rule :
  generate_sql (rule_node "age" "greater" (Some (VInt 30))) = Ok "age > 30".
Proof. reflexivity. Qed.

Example starts_with_rule :
  generate_sql (rule_node "name" "starts_with" (Some (VStr "Jo")))
  = Ok "name LIKE 'Jo%'".
Proof. reflexivity. Qed.

Example between_rule :
  generate_sql (rule_node "x" "between" (Some (VList [VInt 1; VInt 10])))
  = Ok "x BETWEEN 1 AND 10".
Proof. reflexivity. Qed.

Example is_null_rule :
  generate_sql (rule_node "s" "is_null" None) = Ok "s IS NULL".
Proof. reflexivity. Qed.

Example in_rule :
  generate_sql (rule_node "name" "in" (Some (VList [VStr "A"; VStr "B"])))
  = Ok "name IN ('A', 'B')".
Proof. reflexivity. Qed.

Example unknown_node_type :
  generate_sql (mkNode (Some "switch") None None None)
  = Raise (ValueError "Unknown node type: switch").
Proof. reflexivity. Qed.

(** ** The value formatter *)

(** C1 (the code at the failing input): a native boolean with no declared
    type is caught by the number case, because a Python [bool] is an [int];
    [format_value] returns its [str()], ["True"] or ["False"], and the
    boolean case below is not reached. *)
Theorem format_value_bool_untyped (b : bool) :
  format_value (VBool b) VNone = Ok (if b then "True" else "False").
Proof. destruct b; reflexivity. Qed.

Lemma format_value_str (s : string) (value_type : pyval) :
  format_value (VStr s) value_type = Ok (quoted s).
Proof.
  simpl. unfold format_scalar. simpl. rewrite orb_true_r. reflexivity.
Qed.

(** C8: a string value is formatted, whatever its declared type, as a
    quoted literal; the text between the outer quotes holds twice the
    quotes of the value, and reading the literal back as a SQL string
    gives the value. *)
Theorem format_value_string_escaping (s : string) (value_type : pyval) :
  exists literal,
    format_value (VStr s) value_type = Ok literal /\
    literal = "'" ++ slice_1_m1 literal ++ "'" /\
    count_quotes (slice_1_m1 literal) = 2 * count_quotes s /\
    sql_unquote literal = Some s.
Proof.
  exists (quoted s). split; [apply format_value_str|].
  unfold quoted. rewrite slice_quoted. split; [reflexivity|].
  split; [apply count_quotes_replace | apply (sql_unquote_quoted s)].
Qed.

Lemma mapM_cons {A B} (f : A -> result B) (a : A) (rest : list A) :
  mapM f (a :: rest) = (b <- f a ;; bs <- mapM f rest ;; Ok (b :: bs)).
Proof. reflexivity. Qed.

Lemma format_value_tuple (items : list pyval) (value_type : pyval) :
  List.length items <> 1 ->
  format_value (VList items) value_type =
  (parts <- mapM (fun v => format_value v VNone) items ;;
   Ok ("(" ++ str_join ", " parts ++ ")")).
Proof.
  intros Hlen. destruct items as [|v [|w rest]]; try reflexivity.
  simpl in Hlen. congruence.
Qed.

Lemma str_join_cons (sep part : string) (rest : list string) :
  str_join sep (part :: rest) = part ++ prefixed sep rest.
Proof.
  revert part. induction rest as [|next rest IH]; intros part.
  - simpl. induction part; simpl; congruence.
  - change (str_join sep (part :: next :: rest))
      with (part ++ sep ++ str_join sep (next :: rest)).
    rewrite IH. reflexivity.
Qed.

Lemma str_join_separated (sep : string) (parts : list string) :
  str_join sep parts = separated sep parts.
Proof. destruct parts; [reflexivity | apply str_join_cons]. Qed.

Lemma mapM_Forall2 {A B} (f : A -> result B) (l : list A) (out : list B) :
  mapM f l = Ok out <-> Forall2 (fun a b => f a = Ok b) l out.
Proof.
  revert out. induction l as [|a l IH]; intros out.
  - split; intros H.
    + injection H as <-. constructor.
    + inversion H. reflexivity.
  - rewrite mapM_cons. split; intros H.
    + apply bind_ok in H as (b & Hb & H).
      apply bind_ok in H as (bs & Hbs & H). injection H as <-.
      constructor; [assumption | apply IH, Hbs].
    + inversion H as [|? b ? bs Hb Hbs]; subst.
      apply IH in Hbs. rewrite Hb, Hbs. reflexivity.
Qed.

(** ** The rule compiler *)

Lemma eqb_not_in (op name : string) (names : list string) :
  ~ In op names -> In name names -> String.eqb op name = false.
Proof.
  intros Hnot Hin. destruct (String.eqb op name) eqn:E; [|reflexivity].
  apply String.eqb_eq in E. subst. contradiction.
Qed.

Lemma mapping_none (op : string) :
  ~ In op (fixed_operators ++ ["AND"; "OR"]) -> OPERATOR_MAPPING op = None.
Proof.
  intros Hnot. unfold OPERATOR_MAPPING.
  repeat match goal with
  | |- context [String.eqb op ?name] =>
      rewrite (eqb_not_in op name _ Hnot) by (simpl; tauto)
  end.
  reflexivity.
Qed.

Ltac step_result :=
  match goal with
  | |- raises (Raise _) => eexists; reflexivity
  | |- raises (bind ?m _) =>
      let E := fresh "E" in destruct m eqn:E; simpl
  end.

(** X25: an operator that is no key of [OPERATOR_MAPPING], that is none
    of the 18 operators and neither ["AND"] nor ["OR"], makes
    [process_rule] raise, whatever else the rule holds. *)
Theorem unknown_operator_raises (rule : node) (p : properties) (op : string) :
  props rule = Some p ->
  operator p = Some op ->
  ~ In op (fixed_operators ++ ["AND"; "OR"]) ->
  raises (process_rule rule).
Proof.
  intros Hp Hop Hnot.
  pose proof (mapping_none op Hnot) as Hmap.
  unfold process_rule. rewrite Hp. cbn [bind subscript].
  rewrite Hop. cbn [bind subscript].
  unfold operator_in, existsb.
  repeat match goal with
  | |- context [String.eqb op ?name] =>
      rewrite (eqb_not_in op name _ Hnot) by (simpl; tauto)
  end.
  cbn [orb]. unfold operator_sql. rewrite Hmap. cbn [subscript].
  repeat step_result.
Qed.

Lemma unknown_operator_raises_witness :
  raises (process_rule (rule_node "a" "regex" (Some (VStr "x")))).
Proof.
  eapply (unknown_operator_raises (rule_node "a" "regex" (Some (VStr "x")))).
  - reflexivity.
  - reflexivity.
  - simpl. intuition discriminate.
Defined.

(** C3 (the code at the failing input): ["AND"] is none of the 18
    operators, it is in [OPERATOR_MAPPING] for the groups, and a rule with
    this operator is not refused: it compiles. *)
Lemma operator_AND_compiles :
  ~ In "AND" fixed_operators /\
  process_rule (rule_node "a" "AND" (Some (VInt 1))) = Ok "a AND 1".
Proof. split; [simpl; intuition discriminate | reflexivity]. Qed.

Ltac enter_rule Hp Hop Hf :=
  unfold process_rule; rewrite Hp; cbn [bind subscript];
  rewrite Hop; cbn [bind subscript]; rewrite Hf; cbn [bind subscript].

(** C2 (amended): for [between] and [not_between], a missing value and an
    empty sequence raise; a value that is no sequence, or a sequence of one
    element, is not refused: the rule is compiled as a binary operator on
    the value (its sole element), to "field OP formatted". *)
Theorem between_short_value (rule : node) (p : properties) (op f : string) :
  props rule = Some p ->
  operator p = Some op ->
  field p = Some f ->
  op = "between" \/ op = "not_between" ->
  (value p = None -> process_rule rule = Raise (KeyError "value")) /\
  (value p = Some (VList []) -> process_rule rule = Raise IndexError) /\
  (forall v x t s,
     value p = Some v ->
     is_list v = false \/ v = VList [x] ->
     first_if_list v = Ok x ->
     first_if_list (get_default (valueType p) VNone) = Ok t ->
     format_value x t = Ok s ->
     process_rule rule =
       Ok (f ++ " " ++ (if String.eqb op "between" then "BETWEEN"
                        else "NOT BETWEEN") ++ " " ++ s)).
Proof.
  intros Hp Hop Hf Hbetween.
  split; [|split].
  - intros Hv. enter_rule Hp Hop Hf.
    destruct Hbetween; subst op; simpl; rewrite Hv; reflexivity.
  - intros Hv. enter_rule Hp Hop Hf.
    destruct Hbetween; subst op; simpl; rewrite Hv; reflexivity.
  - intros v x t s Hv Hshape Hx Ht Hs. enter_rule Hp Hop Hf.
    assert (Hno : match v with
                  | VList (low :: high :: _) => Some (low, high)
                  | _ => None
                  end = None).
    { destruct Hshape as [Hl | ->]; [|reflexivity].
      destruct v; try reflexivity; discriminate. }
    destruct Hbetween; subst op; simpl; rewrite Hv; cbn [bind subscript];
      rewrite Hno, Hx; cbn [bind]; rewrite Ht; cbn [bind]; rewrite Hs;
      reflexivity.
Qed.

Lemma between_short_value_witness :
  process_rule (rule_node "x" "between" None) = Raise (KeyError "value") /\
  process_rule (rule_node "x" "between" (Some (VList []))) = Raise IndexError /\
  process_rule (rule_node "x" "not_between" (Some (VList [VStr "a"])))
  = Ok "x NOT BETWEEN 'a'".
Proof.
  split; [|split].
  - apply (proj1 (between_short_value
                    (rule_node "x" "between" None) _ "between" "x"
                    eq_refl eq_refl eq_refl (or_introl eq_refl))).
    reflexivity.
  - apply (proj1 (proj2 (between_short_value
                    (rule_node "x" "between" (Some (VList []))) _
                    "between" "x"
                    eq_refl eq_refl eq_refl (or_introl eq_refl)))).
    reflexivity.
  - apply (proj2 (proj2 (between_short_value
                    (rule_node "x" "not_between" (Some (VList [VStr "a"])))
                    _ "not_between" "x"
                    eq_refl eq_refl eq_refl (or_intror eq_refl)))
             (VList [VStr "a"]) (VStr "a") VNone "'a'").
    + reflexivity.
    + right. reflexivity.
    + reflexivity.
    + reflexivity.
    + reflexivity.
Defined.

(** C2 (counterexample): [between] with a value that is no sequence, and
    with a sequence of one element, returns SQL text. *)
Lemma between_one_value_compiles :
  process_rule (rule_node "x" "between" (Some (VInt 5))) = Ok "x BETWEEN 5" /\
  process_rule (rule_node "x" "between" (Some (VList [VInt 5])))
  = Ok "x BETWEEN 5".
Proof. split; reflexivity. Qed.

(** C9: for [in] and [not_in], a value of one element gives
    "field IN v" with v the formatted element, no parentheses added, and a
    value of two or more elements gives the parenthesised tuple of the
    elements, each formatted with no declared type, a comma and a space
    between two of them.  The rule raises when, and what, formatting
    raises. *)
Theorem in_single_and_tuple (rule : node) (p : properties) (op f : string) :
  props rule = Some p ->
  operator p = Some op ->
  field p = Some f ->
  op = "in" \/ op = "not_in" ->
  let sql := if String.eqb op "in" then "IN" else "NOT IN" in
  (forall x,
     value p = Some (VList [x]) ->
     process_rule rule =
     (t <- first_if_list (get_default (valueType p) VNone) ;;
      v <- format_value x t ;;
      Ok (f ++ " " ++ sql ++ " " ++ v))) /\
  (forall items,
     value p = Some (VList items) ->
     2 <= List.length items ->
     process_rule rule =
     (parts <- mapM (fun v => format_value v VNone) items ;;
      Ok (f ++ " " ++ sql ++ " (" ++ separated ", " parts ++ ")"))).
Proof.
  intros Hp Hop Hf Hin sql. subst sql. split.
  - intros x Hv. enter_rule Hp Hop Hf.
    destruct Hin; subst op; simpl; rewrite Hv; cbn [bind subscript];
      simpl;
      destruct (first_if_list (get_default (valueType p) VNone));
      cbn [bind]; [|reflexivity | | reflexivity];
      destruct (format_value x a); reflexivity.
  - intros items Hv Hlen. enter_rule Hp Hop Hf.
    assert (Hfmt : format_value (VList items)
                     (get_default (valueType p) VNone)
                   = (parts <- mapM (fun v => format_value v VNone) items ;;
                      Ok ("(" ++ separated ", " parts ++ ")"))).
    { rewrite format_value_tuple by lia.
      destruct (mapM _ items); cbn [bind]; [|reflexivity].
      now rewrite str_join_separated. }
    destruct Hin; subst op; simpl operator_in; cbn iota;
      rewrite Hv; cbn [bind subscript];
      rewrite Hfmt; destruct (mapM _ items); reflexivity.
Qed.

Lemma in_single_and_tuple_witness :
  process_rule (rule_node "name" "in" (Some (VList [VStr "A"])))
  = Ok "name IN 'A'" /\
  process_rule (rule_node "name" "not_in"
                          (Some (VList [VStr "A"; VInt 2; VNone])))
  = Ok "name NOT IN ('A', 2, NULL)".
Proof.
  split.
  - etransitivity.
    + apply (proj1 (in_single_and_tuple
                      (rule_node "name" "in" (Some (VList [VStr "A"])))
                      _ "in" "name" eq_refl eq_refl eq_refl
                      (or_introl eq_refl))
               (VStr "A") eq_refl).
    + reflexivity.
  - etransitivity.
    + apply (proj2 (in_single_and_tuple
                      (rule_node "name" "not_in"
                                 (Some (VList [VStr "A"; VInt 2; VNone])))
                      _ "not_in" "name" eq_refl eq_refl eq_refl
                      (or_intror eq_refl))
               [VStr "A"; VInt 2; VNone] eq_refl).
      simpl. lia.
    + reflexivity.
Defined.

(** ** The group compiler *)

Lemma collect_conditions_cons (recur : node -> result string)
    (child : node) (rest : list node) (conditions : list string) :
  collect_conditions recur (child :: rest) conditions =
  (child_type <- subscript "type" (type child) ;;
   if String.eqb child_type "rule" then
     condition <- process_rule child ;;
     collect_conditions recur rest (conditions ++ [condition])%list
   else if String.eqb child_type "group" then
     condition <- recur child ;;
     collect_conditions recur rest (conditions ++ [condition])%list
   else collect_conditions recur rest conditions).
Proof. reflexivity. Qed.

(** The loop appends to [conditions] what the recognised children compile
    to, in their order; it raises when a child has no type or when a
    recognised child does not compile. *)
Lemma collect_conditions_spec (children : list node) :
  forall conditions out,
    collect_conditions process_group children conditions = Ok out <->
    Forall has_type children /\
    exists new, compile_to children new /\ out = (conditions ++ new)%list.
Proof.
  unfold compile_to.
  induction children as [|child rest IH]; intros conditions out.
  - simpl. split.
    + intros H. injection H as <-. split; [constructor|].
      exists []. split; [constructor | now rewrite app_nil_r].
    + intros (_ & new & Hnew & ->). inversion Hnew.
      now rewrite app_nil_r.
  - rewrite collect_conditions_cons.
    unfold has_type, recognised, compile_child, is_rule in *.
    simpl filter. unfold recognised.
    destruct (type child) as [t|] eqn:Et; cbn [bind subscript].
    2:{ split; [discriminate|]. intros (Hall & _). inversion Hall.
        congruence. }
    assert (Hty : type child <> None) by congruence.
    destruct (String.eqb t "rule") eqn:Erule; cbn [orb].
    { split.
      - intros H. apply bind_ok in H as (c & Hc & H).
        apply IH in H as (Hall & new & Hnew & ->).
        split; [constructor; assumption|].
        exists (c :: new). split.
        + constructor; [rewrite Et, Erule; exact Hc | exact Hnew].
        + now rewrite <- app_assoc.
      - intros (Hall & new & Hnew & ->). inversion Hall; subst.
        inversion Hnew as [|? c ? new' Hc Hnew']; subst.
        rewrite Et, Erule in Hc. rewrite Hc. cbn [bind].
        apply IH. split; [assumption|]. exists new'.
        split; [assumption | now rewrite <- app_assoc]. }
    destruct (String.eqb t "group") eqn:Egroup.
    { split.
      - intros H. apply bind_ok in H as (c & Hc & H).
        apply IH in H as (Hall & new & Hnew & ->).
        split; [constructor; assumption|].
        exists (c :: new). split.
        + constructor; [rewrite Et, Erule; exact Hc | exact Hnew].
        + now rewrite <- app_assoc.
      - intros (Hall & new & Hnew & ->). inversion Hall; subst.
        inversion Hnew as [|? c ? new' Hc Hnew']; subst.
        rewrite Et, Erule in Hc. rewrite Hc. cbn [bind].
        apply IH. split; [assumption|]. exists new'.
        split; [assumption | now rewrite <- app_assoc]. }
    rewrite IH. split.
    + intros (Hall & new & Hnew & ->). split; [constructor; assumption|].
      exists new. auto.
    + intros (Hall & new & Hnew & ->). inversion Hall; subst.
      split; [assumption|]. exists new. auto.
Qed.

Lemma process_group_eq (group : node) :
  process_group group =
  match children1 group with
  | None => Ok "TRUE"
  | Some children =>
      if is_empty children then Ok "TRUE"
      else
        conditions <- collect_conditions process_group children [] ;;
        Ok (finish_group
              (group_conjunction group)
              (get_default (not_ (get_default (props group) no_properties))
                           false)
              conditions)
  end.
Proof. destruct group; reflexivity. Qed.

Lemma finish_group_eq (group : node) (conditions : list string) :
  finish_group
    (group_conjunction group)
    (get_default (not_ (get_default (props group) no_properties)) false)
    conditions
  = group_prefix group ++
    (if (1 <? List.length conditions)%nat
     then "(" ++ str_join (" " ++ group_conjunction group ++ " ") conditions
              ++ ")"
     else str_join (" " ++ group_conjunction group ++ " ") conditions).
Proof.
  unfold finish_group, group_prefix.
  destruct (get_default (not_ _) false); reflexivity.
Qed.

(** A group with children compiles exactly when every child has a type and
    the recognised children compile; the text is then made of their
    conditions. *)
Lemma process_group_ok (group : node) (children : list node) (s : string) :
  children1 group = Some children ->
  children <> [] ->
  process_group group = Ok s <->
  Forall has_type children /\
  exists conditions,
    compile_to children conditions /\
    s = group_prefix group ++
        (if (1 <? List.length conditions)%nat
         then "(" ++ str_join (" " ++ group_conjunction group ++ " ")
                              conditions ++ ")"
         else str_join (" " ++ group_conjunction group ++ " ") conditions).
Proof.
  intros Hc Hne. rewrite process_group_eq, Hc.
  destruct children as [|c rest]; [contradiction|]. cbn [is_empty].
  split.
  - intros H. apply bind_ok in H as (conds & Hconds & H).
    apply collect_conditions_spec in Hconds as (Hall & new & Hnew & ->).
    injection H as <-. split; [assumption|]. exists new.
    split; [assumption|]. apply finish_group_eq.
  - intros (Hall & conds & Hconds & ->).
    assert (H : collect_conditions process_group (c :: rest) [] = Ok conds).
    { apply collect_conditions_spec. split; [assumption|].
      exists conds. auto. }
    rewrite H. cbn [bind]. now rewrite finish_group_eq.
Qed.

Lemma contains_app (c : ascii) (a b : string) :
  contains c (a ++ b) = contains c a || contains c b.
Proof.
  induction a as [|x a IH]; simpl; [reflexivity|].
  now rewrite IH, orb_assoc.
Qed.

Ltac split_result H :=
  repeat match type of H with
  | bind _ _ = Ok _ =>
      let a := fresh "a" in let E := fresh "E" in
      apply bind_ok in H as (a & E & H)
  | (if ?b then _ else _) = Ok _ => destruct b
  | match ?x with Some _ => _ | None => _ end = Ok _ => destruct x as [[? ?]|]
  end.

(** Every condition that [process_rule] returns holds a space, after the
    field. *)
Lemma process_rule_space (rule : node) (s : string) :
  process_rule rule = Ok s -> contains " " s = true.
Proof.
  unfold process_rule. intros H. split_result H;
    injection H as <-; rewrite contains_app; simpl; apply orb_true_r.
Qed.

(** C4 (amended): a group whose [children1] is not empty compiles exactly
    when every child has a type and each child of type rule or group
    compiles; the text is then their conditions, in the order of the
    children, joined with the conjunction, in parentheses when there are
    two or more, behind "NOT " when the group is negated.  The text is
    "TRUE" only for one compiled child, a group that itself compiles to
    "TRUE", and no negation. *)
Theorem group_joins_children1 (group : node) (children : list node) :
  children1 group = Some children ->
  children <> [] ->
  (forall s,
     process_group group = Ok s <->
     Forall has_type children /\
     exists conditions,
       compile_to children conditions /\
       s = group_prefix group ++
           (if (1 <? List.length conditions)%nat
            then "(" ++ str_join (" " ++ group_conjunction group ++ " ")
                                 conditions ++ ")"
            else str_join (" " ++ group_conjunction group ++ " ")
                          conditions)) /\
  (process_group group = Ok "TRUE" ->
   group_prefix group = "" /\
   exists child,
     filter recognised children = [child] /\
     is_rule child = false /\
     process_group child = Ok "TRUE").
Proof.
  intros Hc Hne. split.
  - intros s. apply process_group_ok; assumption.
  - intros H. apply (process_group_ok _ _ _ Hc Hne) in H
      as (_ & conds & Hconds & Hs).
    unfold group_prefix in *.
    destruct (get_default (not_ _) false); [discriminate|].
    split; [reflexivity|]. cbn [append] in Hs.
    destruct conds as [|c [|c' conds]]; cbn in Hs; try discriminate.
    subst c. unfold compile_to in Hconds.
    inversion Hconds as [|child ? rest ? Hchild Hrest Hf]; subst.
    inversion Hrest; subst. exists child. split; [reflexivity|].
    unfold compile_child in Hchild.
    destruct (is_rule child); [|auto].
    apply process_rule_space in Hchild. discriminate.
Qed.

Lemma group_joins_children1_witness :
  process_group
    (group_node None [rule_node "a" "is_null" None;
                      rule_node "b" "equal" (Some (VInt 2))])
  = Ok "(a IS NULL AND b = 2)" /\
  (group_prefix (group_node None [group_node None []]) = "" /\
   exists child,
     filter recognised [group_node None []] = [child] /\
     is_rule child = false /\
     process_group child = Ok "TRUE").
Proof.
  split.
  - apply (proj1 (group_joins_children1
                    (group_node None [rule_node "a" "is_null" None;
                                      rule_node "b" "equal" (Some (VInt 2))])
                    _ eq_refl ltac:(discriminate))).
    split.
    + repeat constructor; discriminate.
    + exists ["a IS NULL"; "b = 2"]. split; [|reflexivity].
      repeat constructor.
  - apply (proj2 (group_joins_children1
                    (group_node None [group_node None []])
                    _ eq_refl ltac:(discriminate))).
    reflexivity.
Defined.

(** C4 (counterexample): a group whose [children] holds a rule, as the data
    model writes it, compiles to "TRUE": the generator reads [children1].
    So does a group whose only child is an empty group. *)
Lemma group_with_children_returns_TRUE :
  process_group
    (mkNode (Some "group") None (Some [rule_node "a" "is_null" None]) None)
  = Ok "TRUE" /\
  process_group (group_node None [group_node None []]) = Ok "TRUE".
Proof. split; reflexivity. Qed.

(** C5 (amended): the parentheses follow the number of compiled
    conditions, that is of children of type rule or group.  When every
    child has a type and those children compile: for one condition the text
    is that condition, no parentheses added; for two or more the joined
    conditions stand in one added pair of parentheses; "NOT " comes in front
    of either when the group is negated. *)
Theorem group_parentheses (group : node) (children : list node)
    (conditions : list string) :
  children1 group = Some children ->
  Forall has_type children ->
  compile_to children conditions ->
  (forall condition,
     conditions = [condition] ->
     process_group group = Ok (group_prefix group ++ condition)) /\
  (2 <= List.length conditions ->
   process_group group
   = Ok (group_prefix group ++ "(" ++
         str_join (" " ++ group_conjunction group ++ " ") conditions ++ ")")).
Proof.
  intros Hc Hall Hconds.
  assert (Hne : conditions <> [] -> children <> []).
  { intros Hn ->. inversion Hconds. congruence. }
  split.
  - intros condition ->.
    apply (process_group_ok _ _ _ Hc); [apply Hne; discriminate|].
    split; [assumption|]. exists [condition]. split; [assumption|].
    reflexivity.
  - intros Hlen.
    apply (process_group_ok _ _ _ Hc).
    { apply Hne. destruct conditions; [simpl in Hlen; lia | discriminate]. }
    split; [assumption|]. exists conditions. split; [assumption|].
    destruct conditions as [|c [|c' rest]]; simpl in Hlen; try lia.
    reflexivity.
Qed.

Lemma group_parentheses_witness :
  process_group
    (group_node (Some (mkProperties None None None None None (Some true)))
                [rule_node "a" "is_null" None;
                 mkNode (Some "comment") None None None])
  = Ok "NOT a IS NULL" /\
  process_group
    (group_node (Some (mkProperties None None None None (Some "OR") None))
                [rule_node "a" "equal" (Some (VInt 1));
                 rule_node "b" "equal" (Some (VInt 2))])
  = Ok "(a = 1 OR b = 2)".
Proof.
  split.
  - assert (Hall : Forall has_type [rule_node "a" "is_null" None;
                                    mkNode (Some "comment") None None None])
      by (repeat constructor; discriminate).
    assert (Hto : compile_to [rule_node "a" "is_null" None;
                              mkNode (Some "comment") None None None]
                             ["a IS NULL"])
      by (repeat constructor).
    exact (proj1 (group_parentheses
      (group_node (Some (mkProperties None None None None None (Some true)))
                  [rule_node "a" "is_null" None;
                   mkNode (Some "comment") None None None])
      _ ["a IS NULL"] eq_refl Hall Hto) "a IS NULL" eq_refl).
  - assert (Hall : Forall has_type [rule_node "a" "equal" (Some (VInt 1));
                                    rule_node "b" "equal" (Some (VInt 2))])
      by (repeat constructor; discriminate).
    assert (Hto : compile_to [rule_node "a" "equal" (Some (VInt 1));
                              rule_node "b" "equal" (Some (VInt 2))]
                             ["a = 1"; "b = 2"])
      by (repeat constructor).
    apply (proj2 (group_parentheses
      (group_node (Some (mkProperties None None None None (Some "OR") None))
                  [rule_node "a" "equal" (Some (VInt 1));
                   rule_node "b" "equal" (Some (VInt 2))])
      _ ["a = 1"; "b = 2"] eq_refl Hall Hto)).
    simpl. lia.
Defined.

(** C5 (counterexample): a group of two children, one of a type that is
    skipped, compiles to the condition of the other child, with no
    parentheses. *)
Lemma group_two_children_no_parentheses :
  exists children,
    children1 (group_node None [rule_node "a" "is_null" None;
                                mkNode (Some "comment") None None None])
    = Some children /\
    List.length children = 2 /\
    process_group (group_node None [rule_node "a" "is_null" None;
                                    mkNode (Some "comment") None None None])
    = Ok "a IS NULL".
Proof. eexists. repeat split. Qed.

(** C6: a group whose children sequence is empty, the key [children1]
    holding the empty list or missing (as in a group written with
    [children] empty), compiles to exactly "TRUE", also from
    [generate_sql]. *)
Theorem empty_group_TRUE (group : node) :
  children1 group = None \/ children1 group = Some [] ->
  process_group group = Ok "TRUE" /\
  (type group = Some "group" -> generate_sql group = Ok "TRUE").
Proof.
  intros H.
  assert (Hg : process_group group = Ok "TRUE").
  { rewrite process_group_eq. destruct H as [-> | ->]; reflexivity. }
  split; [exact Hg|].
  intros Ht. unfold generate_sql. rewrite Ht. exact Hg.
Qed.

Lemma empty_group_TRUE_witness :
  process_group
    (mkNode (Some "group")
            (Some (mkProperties None None None None (Some "OR") (Some true)))
            (Some []) None)
  = Ok "TRUE" /\
  generate_sql (group_node None []) = Ok "TRUE".
Proof.
  split.
  - apply (proj1 (empty_group_TRUE
      (mkNode (Some "group")
              (Some (mkProperties None None None None (Some "OR")
                                  (Some true)))
              (Some []) None)
      (or_introl eq_refl))).
  - apply (proj2 (empty_group_TRUE (group_node None [])
                                   (or_intror eq_refl))).
    reflexivity.
Defined.

Lemma children1_set_not (negate : bool) (group : node) :
  children1 (set_not negate group) = children1 group.
Proof. reflexivity. Qed.

(** C7: for a group of one child, the text with [not] true is "NOT "
    followed by the text with [not] false; when the child does not compile
    both raise the same exception. *)
Theorem negation_prefix (group child : node) :
  children1 group = Some [child] ->
  process_group (set_not true group)
  = (s <- process_group (set_not false group) ;; Ok ("NOT " ++ s)).
Proof.
  intros Hc. rewrite !process_group_eq, !children1_set_not, Hc.
  cbn [is_empty].
  destruct (collect_conditions process_group [child] []) as [conds|e];
    reflexivity.
Qed.

Lemma negation_prefix_witness :
  process_group (set_not true (group_node None [rule_node "a" "is_null" None]))
  = Ok "NOT a IS NULL".
Proof.
  apply (negation_prefix (group_node None [rule_node "a" "is_null" None])
                         (rule_node "a" "is_null" None) eq_refl).
Defined.

(** C10 (amended): a group with no ["properties"] key compiles as the
    same group with conjunction "AND" and [not] false, to the same text or
    to the same exception; reading the properties raises nothing: when
    every child has a type and the children of type rule or group compile,
    the group compiles to their conditions joined with " AND ", with no
    "NOT " in front. *)
Theorem group_without_properties (group : node) :
  props group = None ->
  process_group group
  = process_group (mkNode (type group) (Some default_properties)
                          (children group) (children1 group)) /\
  (forall children conditions,
     children1 group = Some children ->
     children <> [] ->
     Forall has_type children ->
     compile_to children conditions ->
     process_group group
     = Ok (if (1 <? List.length conditions)%nat
           then "(" ++ str_join " AND " conditions ++ ")"
           else str_join " AND " conditions)).
Proof.
  intros Hp. split.
  - rewrite !process_group_eq. cbn [children1].
    unfold group_conjunction. cbn [props]. rewrite Hp. reflexivity.
  - intros cs conds Hc Hne Hall Hconds.
    apply (process_group_ok _ _ _ Hc Hne). split; [assumption|].
    exists conds. split; [assumption|].
    unfold group_prefix, group_conjunction. rewrite Hp. reflexivity.
Qed.

Lemma group_without_properties_witness :
  process_group
    (mkNode (Some "group") None None
            (Some [rule_node "a" "is_null" None;
                   rule_node "b" "is_empty" None]))
  = process_group
      (mkNode (Some "group") (Some default_properties) None
              (Some [rule_node "a" "is_null" None;
                     rule_node "b" "is_empty" None])) /\
  process_group
    (mkNode (Some "group") None None
            (Some [rule_node "a" "is_null" None;
                   rule_node "b" "is_empty" None]))
  = Ok "(a IS NULL AND b = '')".
Proof.
  split.
  - apply (proj1 (group_without_properties
      (mkNode (Some "group") None None
              (Some [rule_node "a" "is_null" None;
                     rule_node "b" "is_empty" None]))
      eq_refl)).
  - apply (proj2 (group_without_properties
      (mkNode (Some "group") None None
              (Some [rule_node "a" "is_null" None;
                     rule_node "b" "is_empty" None]))
      eq_refl) _ ["a IS NULL"; "b = ''"] eq_refl).
    + discriminate.
    + repeat constructor; discriminate.
    + repeat constructor.
Defined.

(** C10 (counterexample): a group with no ["properties"] key and a child
    that does not compile does not compile: it raises what the child
    raises. *)
Lemma group_without_properties_child_raises :
  props (mkNode (Some "group") None None
                (Some [rule_node "b" "equal" None])) = None /\
  process_group (mkNode (Some "group") None None
                        (Some [rule_node "b" "equal" None]))
  = Raise (KeyError "value").
Proof. split; reflexivity. Qed.

(** ** More on the value formatter *)

Lemma bind_raise {A B} (m : result A) (k : A -> result B) (e : exn) :
  bind m k = Raise e ->
  m = Raise e \/ exists a, m = Ok a /\ k a = Raise e.
Proof.
  destruct m as [a|e']; simpl; intros H.
  - right. exists a. auto.
  - left. injection H as ->. reflexivity.
Qed.

Lemma first_if_list_raise (x : pyval) (e : exn) :
  first_if_list x = Raise e -> e = IndexError.
Proof.
  destruct x as [ | a | [|x0 rest]]; simpl; intros H; congruence.
Qed.

Lemma py_str_eq (a : atom) :
  py_str a = if atom_in_range a then Ok (atom_text a)
             else Raise (ValueError int_limit_message).
Proof. destruct a as [[|] | n | text | s]; reflexivity. Qed.

(** The branches of [format_scalar] that a scalar reaches: the first two. *)
Lemma format_scalar_eq (a : atom) (value_type : pyval) :
  format_scalar a value_type =
  (text <- py_str a ;;
   Ok (if eq_str (effective_type value_type) "string" || is_str a
       then quoted text else text)).
Proof.
  unfold format_scalar. fold (effective_type value_type).
  destruct (eq_str (effective_type value_type) "string"); [reflexivity|].
  destruct a; cbn [orb is_str is_int_or_float]; rewrite ?orb_true_r;
    try reflexivity; destruct (py_str _); reflexivity.
Qed.

Lemma format_value_scalar_ok (v value_type : pyval) :
  scalar_in_range v = true -> exists s, format_value v value_type = Ok s.
Proof.
  destruct v as [ | a | items]; [eexists; reflexivity | | discriminate].
  simpl. intros Hrange. rewrite format_scalar_eq, py_str_eq, Hrange.
  eexists; reflexivity.
Qed.

Lemma mapM_scalars_ok (items : list pyval) :
  forallb scalar_in_range items = true ->
  exists parts, mapM (fun v => format_value v VNone) items = Ok parts.
Proof.
  induction items as [|v rest IH]; [eexists; reflexivity|].
  simpl forallb. intros H. apply andb_true_iff in H as [Hv Hrest].
  destruct (format_value_scalar_ok v VNone Hv) as [s Hs].
  destruct (IH Hrest) as [parts Hparts]. exists (s :: parts).
  rewrite mapM_cons, Hs, Hparts. reflexivity.
Qed.

(** On a value of the data model, the only exception is the one of the
    first element of an empty declared type, for a list of one element. *)
Lemma format_value_flat (v value_type : pyval) :
  flat_in_range v = true ->
  (exists s, format_value v value_type = Ok s) \/
  (format_value v value_type = Raise IndexError /\
   (exists x, v = VList [x]) /\ value_type = VList []).
Proof.
  intros Hflat. destruct v as [ | a | items].
  - left. eexists; reflexivity.
  - left. apply format_value_scalar_ok, Hflat.
  - simpl in Hflat. destruct items as [|x [|y rest]].
    + left. eexists; reflexivity.
    + simpl in Hflat. rewrite andb_true_r in Hflat.
      destruct value_type as [ | t | [|t ts]].
      * left. apply (format_value_scalar_ok x VNone Hflat).
      * left. apply (format_value_scalar_ok x (VAtom t) Hflat).
      * right. repeat split; eauto.
      * left. apply (format_value_scalar_ok x t Hflat).
    + left. rewrite format_value_tuple by (simpl; congruence).
      destruct (mapM_scalars_ok _ Hflat) as [parts Hparts].
      rewrite Hparts. eexists; reflexivity.
Qed.

(** X1: on a value of the data model (a scalar or a list of scalars, each
    int of no more digits than the limit of [str()]), [format_value]
    raises in one case only: the value is a list of one element and the
    declared type is the empty list; the exception is IndexError. *)
Theorem format_value_raises_IndexError (v value_type : pyval) (e : exn) :
  flat_in_range v = true ->
  format_value v value_type = Raise e <->
  e = IndexError /\ (exists x, v = VList [x]) /\ value_type = VList [].
Proof.
  intros Hflat. split.
  - intros H.
    destruct (format_value_flat v value_type Hflat)
      as [[s Hs] | (Hraise & Hv & Ht)]; [congruence|].
    split; [congruence | auto].
  - intros (-> & [x ->] & ->). reflexivity.
Qed.

Lemma format_value_raises_IndexError_witness :
  format_value (VList [VInt 1]) (VList []) = Raise IndexError.
Proof.
  apply (proj2 (format_value_raises_IndexError
                  (VList [VInt 1]) (VList []) IndexError eq_refl)).
  split; [reflexivity|]. split; [eexists; reflexivity | reflexivity].
Defined.

(** X2: on a value of the data model, and with a declared type that is
    not the empty list, [format_value] returns. *)
Theorem format_value_no_list_type_ok (v value_type : pyval) :
  flat_in_range v = true ->
  value_type <> VList [] ->
  exists s, format_value v value_type = Ok s.
Proof.
  intros Hflat Ht.
  destruct (format_value_flat v value_type Hflat) as [H | (_ & _ & H)];
    [exact H | contradiction].
Qed.

Lemma format_value_no_list_type_ok_witness :
  exists s,
    format_value (VList [VStr "a"; VInt 1; VNone])
                 (VList [VStr "number"]) = Ok s.
Proof.
  apply (format_value_no_list_type_ok
           (VList [VStr "a"; VInt 1; VNone]) (VList [VStr "number"])
           eq_refl).
  discriminate.
Defined.

(** X3: for a scalar value only the declared type "string" counts: a
    string, and any scalar declared "string", is quoted with its quotes
    doubled; every other boolean, integer or float is printed as [str()]
    prints it, whatever type is declared, so that the cases for "boolean",
    "date", "datetime" and "time" are reached for no scalar.  An int of
    more digits than the limit of [str()] raises ValueError. *)
Theorem format_value_scalar (a : atom) (value_type : pyval) :
  format_value (VAtom a) value_type =
  if atom_in_range a
  then Ok (if eq_str (effective_type value_type) "string" || is_str a
           then quoted (atom_text a)
           else atom_text a)
  else Raise (ValueError int_limit_message).
Proof.
  simpl. rewrite format_scalar_eq, py_str_eq.
  destruct (atom_in_range a); reflexivity.
Qed.

Lemma item_values_in_range (items : list (option atom)) :
  forallb (fun item => scalar_in_range (item_value item)) items = true ->
  mapM (fun v => format_value v VNone) (map item_value items)
  = Ok (map untyped_literal items).
Proof.
  induction items as [|item rest IH]; [reflexivity|].
  simpl forallb. intros H. apply andb_true_iff in H as [Hitem Hrest].
  cbn [map]. rewrite mapM_cons, (IH Hrest).
  destruct item as [a|]; [|reflexivity].
  cbn [item_value]. simpl format_value.
  rewrite format_scalar_eq, py_str_eq.
  simpl in Hitem. rewrite Hitem.
  destruct a as [[|] | n | text | s]; reflexivity.
Qed.

(** X4: a list of no or of several scalars, null among them, each int in
    the range of [str()], is formatted without its declared type: it is
    the tuple, in parentheses, of the literals its elements have with no
    declared type, a comma and a space between two of them. *)
Theorem format_value_tuple_untyped (items : list (option atom))
    (value_type : pyval) :
  List.length items <> 1 ->
  forallb (fun item => scalar_in_range (item_value item)) items = true ->
  format_value (VList (map item_value items)) value_type
  = Ok ("(" ++ separated ", " (map untyped_literal items) ++ ")").
Proof.
  intros Hlen Hrange.
  rewrite format_value_tuple by (rewrite length_map; exact Hlen).
  rewrite (item_values_in_range items Hrange). cbn [bind].
  now rewrite str_join_separated.
Qed.

Lemma format_value_tuple_untyped_witness :
  format_value (VList [VStr "it's"; VInt 2; VNone; VBool true])
               (VStr "string")
  = Ok "('it''s', 2, NULL, True)".
Proof.
  apply (format_value_tuple_untyped
           [Some (AStr "it's"); Some (AInt 2); None; Some (ABool true)]
           (VStr "string")).
  - simpl. lia.
  - reflexivity.
Defined.

Lemma int_digits_ten_pow_4300 : int_digits ten_pow_4300 = 4301.
Proof.
  unfold int_digits, str_int, ten_pow_4300.
  rewrite Z.abs_eq by (unfold Z.of_int, Z.of_uint; apply N2Z.is_nonneg).
  rewrite DecimalZ.to_of. vm_compute. reflexivity.
Qed.

(** The int [10 ** 4300] is not formatted: [str()] raises. *)
Example format_value_ten_pow_4300 (value_type : pyval) :
  format_value (VInt ten_pow_4300) value_type
  = Raise (ValueError int_limit_message).
Proof.
  unfold VInt. cbn [format_value].
  rewrite format_scalar_eq. cbn [py_str]. unfold str_of_int.
  rewrite int_digits_ten_pow_4300. reflexivity.
Qed.

(** X5: two strings that format to the same literal are the same string. *)
Theorem format_value_string_injective (s1 s2 : string) (t1 t2 : pyval) :
  format_value (VStr s1) t1 = format_value (VStr s2) t2 -> s1 = s2.
Proof.
  rewrite !format_value_str. intros H.
  assert (Hq : quoted s1 = quoted s2) by congruence.
  apply (f_equal sql_unquote) in Hq.
  rewrite !sql_unquote_quoted in Hq. congruence.
Qed.

Lemma format_value_string_injective_witness :
  format_value (VStr "a'b") VNone = format_value (VStr "a'b") (VStr "number")
  /\ "a'b" = "a'b".
Proof.
  split; [reflexivity|].
  apply (format_value_string_injective "a'b" "a'b" VNone (VStr "number")).
  reflexivity.
Defined.

(** ** More on the rule compiler *)

(** X6: the keys of a rule are read in the order "properties", "operator",
    "field", and "value" after the operators that take no value have
    returned; the first key that is missing is the one the KeyError
    names, also when the operator is unknown. *)
Theorem process_rule_missing_key (rule : node) :
  (props rule = None ->
   process_rule rule = Raise (KeyError "properties")) /\
  (forall p,
     props rule = Some p -> operator p = None ->
     process_rule rule = Raise (KeyError "operator")) /\
  (forall p op,
     props rule = Some p -> operator p = Some op -> field p = None ->
     process_rule rule = Raise (KeyError "field")) /\
  (forall p op f,
     props rule = Some p -> operator p = Some op -> field p = Some f ->
     ~ In op ["is_null"; "is_not_null"; "is_empty"; "is_not_empty"] ->
     value p = None ->
     process_rule rule = Raise (KeyError "value")).
Proof.
  repeat split.
  - intros Hp. unfold process_rule. rewrite Hp. reflexivity.
  - intros p Hp Hop. unfold process_rule. rewrite Hp. cbn [bind subscript].
    rewrite Hop. reflexivity.
  - intros p op Hp Hop Hf. unfold process_rule. rewrite Hp.
    cbn [bind subscript]. rewrite Hop. cbn [bind subscript].
    rewrite Hf. reflexivity.
  - intros p op f Hp Hop Hf Hnot Hv. enter_rule Hp Hop Hf.
    unfold operator_in, existsb.
    repeat match goal with
    | |- context [String.eqb op ?name] =>
        rewrite (eqb_not_in op name _ Hnot) by (simpl; tauto)
    end.
    cbn [orb]. rewrite Hv. reflexivity.
Qed.

Lemma process_rule_missing_key_witness :
  process_rule (mkNode (Some "rule") None None None)
  = Raise (KeyError "properties") /\
  process_rule (mkNode (Some "rule") (Some no_properties) None None)
  = Raise (KeyError "operator") /\
  process_rule
    (mkNode (Some "rule")
            (Some (mkProperties None (Some "regex") None None None None))
            None None)
  = Raise (KeyError "field") /\
  process_rule (rule_node "a" "regex" None) = Raise (KeyError "value").
Proof.
  split; [|split; [|split]].
  - apply (proj1 (process_rule_missing_key
                    (mkNode (Some "rule") None None None)) eq_refl).
  - apply (proj1 (proj2 (process_rule_missing_key
                    (mkNode (Some "rule") (Some no_properties) None None)))
             no_properties eq_refl eq_refl).
  - apply (proj1 (proj2 (proj2 (process_rule_missing_key
             (mkNode (Some "rule")
                (Some (mkProperties None (Some "regex") None None None None))
                None None))))
             (mkProperties None (Some "regex") None None None None)
             "regex" eq_refl eq_refl eq_refl).
  - apply (proj2 (proj2 (proj2 (process_rule_missing_key
                                  (rule_node "a" "regex" None))))
             (mkProperties (Some "a") (Some "regex") None None None None)
             "regex" "a" eq_refl eq_refl eq_refl).
    + simpl. intuition discriminate.
    + reflexivity.
Defined.

(** X7: the four operators that test for null or for the empty string
    need the field only: the rule compiles to the field and the SQL of
    the operator, whether a value or a value type is there or not. *)
Theorem null_and_empty_checks (rule : node) (p : properties)
    (op f : string) :
  props rule = Some p ->
  operator p = Some op ->
  field p = Some f ->
  In op ["is_null"; "is_not_null"; "is_empty"; "is_not_empty"] ->
  exists sql,
    OPERATOR_MAPPING op = Some sql /\
    process_rule rule = Ok (f ++ " " ++ sql).
Proof.
  intros Hp Hop Hf Hin. simpl in Hin.
  destruct Hin as [<- | [<- | [<- | [<- | []]]]];
    eexists; (split; [reflexivity|]); enter_rule Hp Hop Hf; reflexivity.
Qed.

Lemma null_and_empty_checks_witness :
  exists sql,
    OPERATOR_MAPPING "is_not_empty" = Some sql /\
    process_rule (rule_node "s" "is_not_empty" (Some (VList [])))
    = Ok ("s" ++ " " ++ sql).
Proof.
  apply (null_and_empty_checks
           (rule_node "s" "is_not_empty" (Some (VList []))) _
           "is_not_empty" "s" eq_refl eq_refl eq_refl).
  simpl. tauto.
Defined.

(** X8: [between] and [not_between] on a value of two elements or more
    format the first two, both with the same type (the declared type, its
    first element when it is a list), and join them with " AND "; the
    elements after the second are not looked at. *)
Theorem between_two_values (rule : node) (p : properties) (op f : string)
    (low high : pyval) (rest : list pyval) (t : pyval) (lo hi : string) :
  props rule = Some p ->
  operator p = Some op ->
  field p = Some f ->
  op = "between" \/ op = "not_between" ->
  value p = Some (VList (low :: high :: rest)) ->
  first_if_list (get_default (valueType p) VNone) = Ok t ->
  format_value low t = Ok lo ->
  format_value high t = Ok hi ->
  process_rule rule =
    Ok (f ++ " " ++ (if String.eqb op "between" then "BETWEEN"
                     else "NOT BETWEEN") ++ " " ++ lo ++ " AND " ++ hi).
Proof.
  intros Hp Hop Hf Hbetween Hv Ht Hlo Hhi. enter_rule Hp Hop Hf.
  destruct Hbetween; subst op; simpl; rewrite Hv; cbn [bind subscript];
    rewrite Ht; cbn [bind]; rewrite Hlo; cbn [bind]; rewrite Hhi;
    reflexivity.
Qed.

Lemma between_two_values_witness :
  process_rule
    (mkNode (Some "rule")
       (Some (mkProperties (Some "x") (Some "not_between")
                (Some (VList [VInt 1; VStr "b"; VInt 3]))
                (Some (VList [VStr "string"; VStr "number"])) None None))
       None None)
  = Ok "x NOT BETWEEN '1' AND 'b'".
Proof.
  apply (between_two_values
    (mkNode (Some "rule")
       (Some (mkProperties (Some "x") (Some "not_between")
                (Some (VList [VInt 1; VStr "b"; VInt 3]))
                (Some (VList [VStr "string"; VStr "number"])) None None))
       None None)
    _ "not_between" "x" (VInt 1) (VStr "b") [VInt 3] (VStr "string")
    "'1'" "'b'" eq_refl eq_refl eq_refl (or_intror eq_refl) eq_refl
    eq_refl eq_refl eq_refl).
Defined.

Lemma append_assoc (a b c : string) : (a ++ b) ++ c = a ++ b ++ c.
Proof. induction a; simpl; congruence. Qed.

Lemma str_replace_app (old : ascii) (new a b : string) :
  str_replace old new (a ++ b)
  = str_replace old new a ++ str_replace old new b.
Proof.
  induction a as [|c a IH]; simpl; [reflexivity|].
  destruct (Ascii.eqb c old); simpl; rewrite IH; [|reflexivity].
  now rewrite append_assoc.
Qed.

(** X9: on a string value (or a list that starts with one),
    [starts_with] and [ends_with] give LIKE with the literal of the string
    followed, or preceded, by the wildcard: stripping the quotes of the
    formatted value and quoting again keeps the doubled quotes. *)
Theorem like_pattern_of_string (rule : node) (p : properties)
    (op f : string) (v t : pyval) (s : string) :
  props rule = Some p ->
  operator p = Some op ->
  field p = Some f ->
  value p = Some v ->
  first_if_list v = Ok (VStr s) ->
  first_if_list (get_default (valueType p) VNone) = Ok t ->
  (op = "starts_with" ->
   process_rule rule = Ok (f ++ " LIKE " ++ quoted (s ++ "%"))) /\
  (op = "ends_with" ->
   process_rule rule = Ok (f ++ " LIKE " ++ quoted ("%" ++ s))).
Proof.
  intros Hp Hop Hf Hv Hs Ht.
  split; intros ->; enter_rule Hp Hop Hf; simpl; rewrite Hv;
    cbn [bind subscript]; rewrite Hs; cbn [bind]; rewrite Ht; cbn [bind];
    rewrite format_value_str; cbn [bind]; unfold quoted;
    rewrite slice_quoted.
  - rewrite str_replace_app. simpl. now rewrite !append_assoc.
  - reflexivity.
Qed.

Lemma like_pattern_of_string_witness :
  process_rule (rule_node "name" "starts_with" (Some (VList [VStr "O'B"])))
  = Ok "name LIKE 'O''B%'" /\
  process_rule (rule_node "name" "ends_with" (Some (VStr "O'B")))
  = Ok "name LIKE '%O''B'".
Proof.
  split.
  - apply (proj1 (like_pattern_of_string
             (rule_node "name" "starts_with" (Some (VList [VStr "O'B"])))
             _ "starts_with" "name" (VList [VStr "O'B"]) VNone "O'B"
             eq_refl eq_refl eq_refl eq_refl eq_refl eq_refl) eq_refl).
  - apply (proj2 (like_pattern_of_string
             (rule_node "name" "ends_with" (Some (VStr "O'B")))
             _ "ends_with" "name" (VStr "O'B") VNone "O'B"
             eq_refl eq_refl eq_refl eq_refl eq_refl eq_refl) eq_refl).
Defined.

(** X10: the eight comparison operators format the value, or the first
    element of a value list, whose other elements are not looked at, and
    put the SQL of the operator between the field and it. *)
Theorem binary_operator_first_value (rule : node) (p : properties)
    (op f : string) (v x t : pyval) (s : string) :
  props rule = Some p ->
  operator p = Some op ->
  field p = Some f ->
  In op binary_operators ->
  value p = Some v ->
  first_if_list v = Ok x ->
  first_if_list (get_default (valueType p) VNone) = Ok t ->
  format_value x t = Ok s ->
  exists sql,
    OPERATOR_MAPPING op = Some sql /\
    process_rule rule = Ok (f ++ " " ++ sql ++ " " ++ s).
Proof.
  intros Hp Hop Hf Hin Hv Hx Ht Hs. simpl in Hin.
  destruct Hin as [<-|[<-|[<-|[<-|[<-|[<-|[<-|[<-|[]]]]]]]]];
    eexists; (split; [reflexivity|]); enter_rule Hp Hop Hf; simpl;
    rewrite Hv; cbn [bind subscript]; rewrite Hx; cbn [bind];
    rewrite Ht; cbn [bind]; rewrite Hs; reflexivity.
Qed.

Lemma binary_operator_first_value_witness :
  exists sql,
    OPERATOR_MAPPING "not_like" = Some sql /\
    process_rule (rule_node "a" "not_like" (Some (VList [VStr "x%"; VInt 2])))
    = Ok ("a" ++ " " ++ sql ++ " " ++ "'x%'").
Proof.
  apply (binary_operator_first_value
           (rule_node "a" "not_like" (Some (VList [VStr "x%"; VInt 2])))
           _ "not_like" "a" (VList [VStr "x%"; VInt 2]) (VStr "x%") VNone
           "'x%'" eq_refl eq_refl eq_refl).
  - simpl. tauto.
  - reflexivity.
  - reflexivity.
  - reflexivity.
  - reflexivity.
Defined.

(** X11: the text of a rule starts with its field, as it is, and a
    space. *)
Theorem process_rule_starts_with_field (rule : node) (s : string) :
  process_rule rule = Ok s ->
  exists p f rest,
    props rule = Some p /\ field p = Some f /\ s = f ++ " " ++ rest.
Proof.
  unfold process_rule. intros H.
  destruct (props rule) as [p|] eqn:Hp; [|discriminate].
  cbn [bind subscript] in H.
  destruct (operator p) as [op|] eqn:Hop; [|discriminate].
  cbn [bind subscript] in H.
  destruct (field p) as [f|] eqn:Hf; [|discriminate].
  cbn [bind subscript] in H.
  exists p, f. split_result H; injection H as <-;
    eexists; (split; [reflexivity|]); (split; [assumption|]); reflexivity.
Qed.

Lemma process_rule_starts_with_field_witness :
  exists p f rest,
    props (rule_node "a.b" "ends_with" (Some (VInt 5))) = Some p /\
    field p = Some f /\ "a.b LIKE '%'" = f ++ " " ++ rest.
Proof.
  apply (process_rule_starts_with_field
           (rule_node "a.b" "ends_with" (Some (VInt 5)))).
  reflexivity.
Defined.

Lemma subscript_raise {A} (key : string) (entry : option A) (e : exn) :
  subscript key entry = Raise e -> key_or_index e.
Proof.
  destruct entry; simpl; intros H; [discriminate|].
  injection H as <-. right. eexists; reflexivity.
Qed.

Lemma key_or_index_compiler (e : exn) : key_or_index e -> compiler_exn e.
Proof. unfold compiler_exn. intros [H | H]; auto. Qed.

Lemma format_scalar_raise (a : atom) (value_type : pyval) (e : exn) :
  format_scalar a value_type = Raise e -> e = ValueError int_limit_message.
Proof.
  rewrite format_scalar_eq, py_str_eq.
  destruct (atom_in_range a); simpl; congruence.
Qed.

Lemma format_value_raise (value : pyval) :
  forall value_type e,
    format_value value value_type = Raise e -> compiler_exn e.
Proof.
  revert value. fix IH 1. intros [ | a | items] value_type e H.
  - discriminate.
  - apply format_scalar_raise in H. unfold compiler_exn. auto.
  - destruct items as [|v [|w rest]].
    + discriminate.
    + simpl in H. apply bind_raise in H as [H | (t & _ & H)].
      * apply first_if_list_raise in H. left. assumption.
      * apply (IH v t e H).
    + rewrite format_value_tuple in H by (simpl; congruence).
      apply bind_raise in H as [H | (parts & _ & H)]; [|discriminate].
      revert H. generalize (v :: w :: rest). intros l.
      induction l as [|x l IHl]; [discriminate|].
      rewrite mapM_cons. intros H.
      apply bind_raise in H as [H | (s & _ & H)]; [apply (IH x VNone e H)|].
      apply bind_raise in H as [H | (ss & _ & H)];
        [apply IHl, H | discriminate].
Qed.

Ltac split_raise H :=
  repeat match type of H with
  | bind _ _ = Raise _ =>
      let a := fresh "a" in let E := fresh "E" in
      apply bind_raise in H as [H | (a & E & H)]
  | (if ?b then _ else _) = Raise _ => destruct b
  | match ?x with Some _ => _ | None => _ end = Raise _ =>
      destruct x as [[? ?]|]
  end.

Ltac close_raise H :=
  solve [ discriminate H
        | apply subscript_raise in H; apply key_or_index_compiler; exact H
        | apply first_if_list_raise in H; left; exact H
        | apply format_value_raise in H; exact H ].

Lemma process_rule_raise (rule : node) (e : exn) :
  process_rule rule = Raise e -> compiler_exn e.
Proof.
  unfold process_rule, operator_sql. intros H.
  split_raise H; close_raise H.
Qed.

Lemma collect_conditions_raise (children : list node) :
  Forall (fun child => forall e, process_group child = Raise e ->
                                 compiler_exn e) children ->
  forall conditions e,
    collect_conditions process_group children conditions = Raise e ->
    compiler_exn e.
Proof.
  induction 1 as [|child rest Hchild _ IH]; intros conditions e H.
  - discriminate.
  - rewrite collect_conditions_cons in H.
    apply bind_raise in H as [H | (t & _ & H)];
      [apply subscript_raise in H; apply key_or_index_compiler; exact H|].
    destruct (String.eqb t "rule").
    + apply bind_raise in H as [H | (c & _ & H)];
        [apply process_rule_raise in H; exact H | apply (IH _ _ H)].
    + destruct (String.eqb t "group").
      * apply bind_raise in H as [H | (c & _ & H)];
          [apply (Hchild _ H) | apply (IH _ _ H)].
      * apply (IH _ _ H).
Qed.

Lemma process_group_raise (group : node) :
  forall e, process_group group = Raise e -> compiler_exn e.
Proof.
  revert group. fix IH 1. intros [t p c c1] e H.
  rewrite process_group_eq in H. cbn [children1] in H.
  destruct c1 as [cs|]; [|discriminate].
  destruct (is_empty cs); [discriminate|].
  apply bind_raise in H as [H | (conds & _ & H)]; [|discriminate].
  refine (collect_conditions_raise cs _ _ e H).
  clear H. induction cs as [|child rest IHrest]; constructor.
  - apply IH.
  - exact IHrest.
Qed.

Lemma scalar_is_flat (v : pyval) :
  scalar_in_range v = true -> flat_in_range v = true.
Proof. destruct v; simpl; congruence. Qed.

Lemma format_value_flat_raise (v value_type : pyval) (e : exn) :
  flat_in_range v = true ->
  format_value v value_type = Raise e -> key_or_index e.
Proof.
  intros Hflat H.
  destruct (format_value_flat v value_type Hflat)
    as [[s Hs] | (Hraise & _)]; [congruence|].
  left. congruence.
Qed.

Ltac close_flat_raise H :=
  solve [ discriminate H
        | cbn [bind subscript] in H; injection H as <-;
          first [left; reflexivity | right; eexists; reflexivity]
        | apply subscript_raise in H; exact H
        | apply first_if_list_raise in H; left; exact H
        | apply format_value_flat_raise in H;
            [exact H | solve [assumption | apply scalar_is_flat; assumption]]
        ].

(** X12: a rule whose value, when there is one, is a value of the data
    model (a scalar or a list of scalars, each int in the range of
    [str()]) raises only KeyError, for a missing key or an unknown
    operator, and IndexError, for an empty value or declared type. *)
Theorem process_rule_raises_key_or_index (rule : node) (e : exn) :
  (forall p v, props rule = Some p -> value p = Some v ->
               flat_in_range v = true) ->
  process_rule rule = Raise e ->
  key_or_index e.
Proof.
  intros Hflat H. unfold process_rule, operator_sql in H.
  destruct (props rule) as [p|] eqn:Hp; [|close_flat_raise H].
  cbn [bind subscript] in H.
  destruct (operator p) as [op|]; [|close_flat_raise H].
  cbn [bind subscript] in H.
  destruct (field p) as [f|]; [|close_flat_raise H].
  cbn [bind subscript] in H.
  destruct (operator_in op ["is_null"; "is_not_null"]);
    [split_raise H; close_flat_raise H|].
  destruct (operator_in op ["is_empty"; "is_not_empty"]);
    [split_raise H; close_flat_raise H|].
  destruct (value p) as [v|] eqn:Hv; [|close_flat_raise H].
  specialize (Hflat p v eq_refl Hv). cbn [bind subscript] in H.
  destruct (operator_in op ["between"; "not_between"]);
    destruct v as [ | a | [|x [|y rest]]];
    cbn [first_if_list bind] in H; pose proof Hflat as Hwhole;
    simpl in Hflat;
    repeat match type of Hflat with
    | _ && _ = true =>
        let H1 := fresh "Hflat" in
        apply andb_true_iff in Hflat as [H1 Hflat]
    end;
    split_raise H;
    try close_flat_raise H.
Qed.

Lemma process_rule_raises_key_or_index_witness :
  key_or_index (KeyError "regex") /\ key_or_index IndexError.
Proof.
  split.
  - apply (process_rule_raises_key_or_index
             (rule_node "a" "regex" (Some (VInt 1))) (KeyError "regex")).
    + intros p v [= <-] [= <-]. reflexivity.
    + reflexivity.
  - apply (process_rule_raises_key_or_index
             (rule_node "a" "equal" (Some (VList []))) IndexError).
    + intros p v [= <-] [= <-]. reflexivity.
    + reflexivity.
Defined.

(** X13: [generate_sql] raises the ValueError of an unknown node type,
    with the type in its message, exactly for a tree whose type is there
    and is neither "group" nor "rule"; a node of such a type below the
    root does not raise it. *)
Theorem generate_sql_ValueError (query_tree : node) (t : string) :
  generate_sql query_tree = Raise (ValueError ("Unknown node type: " ++ t))
  <->
  type query_tree = Some t /\ t <> "group" /\ t <> "rule".
Proof.
  unfold generate_sql. split.
  - intros H. destruct (type query_tree) as [t'|]; [|discriminate].
    cbn [bind subscript] in H.
    destruct (String.eqb t' "group") eqn:Eg.
    { apply process_group_raise in H.
      destruct H as [H | [[k H] | H]]; discriminate. }
    destruct (String.eqb t' "rule") eqn:Er.
    { apply process_rule_raise in H.
      destruct H as [H | [[k H] | H]]; discriminate. }
    injection H as H. subst t'.
    apply String.eqb_neq in Eg, Er. auto.
  - intros (-> & Hg & Hr). cbn [bind subscript].
    apply String.eqb_neq in Hg, Hr. rewrite Hg, Hr. reflexivity.
Qed.

Lemma generate_sql_ValueError_witness :
  type (mkNode (Some "rule_group") None None None) = Some "rule_group" /\
  "rule_group" <> "group" /\ "rule_group" <> "rule".
Proof.
  apply (proj1 (generate_sql_ValueError
                  (mkNode (Some "rule_group") None None None)
                  "rule_group")).
  reflexivity.
Defined.

(** X14: a rule with its field, one of the twenty operators of
    [OPERATOR_MAPPING], a value of the data model (a scalar or a list of
    scalars, each int in the range of [str()]) that is no empty list, and
    a declared type that is missing or no list compiles. *)
Theorem known_operator_compiles (rule : node) (p : properties)
    (op f : string) (v x : pyval) :
  props rule = Some p ->
  operator p = Some op ->
  field p = Some f ->
  In op (fixed_operators ++ ["AND"; "OR"]) ->
  value p = Some v ->
  flat_in_range v = true ->
  first_if_list v = Ok x ->
  is_list (get_default (valueType p) VNone) = false ->
  exists s, process_rule rule = Ok s.
Proof.
  intros Hp Hop Hf Hin Hv Hflat Hx Hnolist.
  remember (get_default (valueType p) VNone) as vt eqn:Evt.
  assert (Hvt : first_if_list vt = Ok vt)
    by (destruct vt; try reflexivity; discriminate).
  assert (Hne : vt <> VList []) by (intros ->; discriminate).
  assert (Hfmt : forall y, flat_in_range y = true ->
                           exists s, format_value y vt = Ok s).
  { intros y Hy.
    destruct (format_value_flat y vt Hy) as [H | (_ & _ & H)];
      [exact H | contradiction]. }
  assert (Hxflat : flat_in_range x = true).
  { destruct v as [ | a | [|x0 rest]]; simpl in Hx; try discriminate;
      injection Hx as <-; try exact Hflat.
    simpl in Hflat. apply andb_true_iff in Hflat as [Hx0 _].
    apply scalar_is_flat, Hx0. }
  simpl in Hin.
  repeat (destruct Hin as [<- | Hin];
          [enter_rule Hp Hop Hf; cbn -[format_value first_if_list];
           rewrite ?Hv; cbn [bind subscript]; rewrite <- ?Evt;
           try (destruct v as [ | a | [|low [|high rest]]];
                cbn [bind] in *; try discriminate);
           rewrite ?Hx, ?Hvt; cbn [bind first_if_list];
           repeat match goal with
           | |- context [format_value ?y _] =>
               let s := fresh "s" in let Hs := fresh "Hs" in
               let Hy := fresh "Hy" in
               assert (Hy : flat_in_range y = true)
                 by (first [ assumption
                           | simpl in Hflat;
                             repeat (apply andb_true_iff in Hflat
                                       as [? Hflat]);
                             apply scalar_is_flat; assumption ]);
               destruct (Hfmt y Hy) as [s Hs]; rewrite Hs; cbn [bind]
           end;
           eexists; reflexivity
          |]).
  contradiction.
Qed.

Lemma known_operator_compiles_witness :
  exists s,
    process_rule (rule_node "a" "between" (Some (VList [VInt 1]))) = Ok s.
Proof.
  apply (known_operator_compiles
           (rule_node "a" "between" (Some (VList [VInt 1])))
           _ "between" "a" (VList [VInt 1]) (VInt 1)
           eq_refl eq_refl eq_refl).
  - simpl. tauto.
  - reflexivity.
  - reflexivity.
  - reflexivity.
  - reflexivity.
Defined.

(** ** More on the group compiler *)

Lemma collect_conditions_filter (children : list node) :
  Forall has_type children ->
  forall conditions,
    collect_conditions process_group children conditions
    = collect_conditions process_group (filter recognised children)
                         conditions.
Proof.
  induction 1 as [|child rest Hchild _ IH]; intros conditions;
    [reflexivity|].
  rewrite collect_conditions_cons. simpl filter.
  unfold has_type in Hchild. unfold recognised at 1.
  destruct (type child) as [t|] eqn:Et; [|congruence].
  cbn [bind subscript].
  destruct (String.eqb t "rule") eqn:Er; cbn [orb].
  - rewrite collect_conditions_cons, Et. cbn [bind subscript].
    rewrite Er. destruct (process_rule child); cbn [bind]; [apply IH|].
    reflexivity.
  - destruct (String.eqb t "group") eqn:Eg.
    + rewrite collect_conditions_cons, Et. cbn [bind subscript].
      rewrite Er, Eg. destruct (process_group child); cbn [bind];
        [apply IH | reflexivity].
    + apply IH.
Qed.

(** X15: children of a type other than "rule" and "group" are skipped:
    when every child has a type and one at least is a rule or a group,
    the group compiles as the group of its rules and groups alone, to the
    same text or to the same exception. *)
Theorem skipped_children_change_nothing (group : node)
    (children : list node) :
  children1 group = Some children ->
  Forall has_type children ->
  filter recognised children <> [] ->
  process_group group
  = process_group (with_children1 group (filter recognised children)).
Proof.
  intros Hc Hall Hne. rewrite !process_group_eq. cbn [children1 with_children1].
  rewrite Hc.
  assert (Hcs : is_empty children = false).
  { destruct children; [contradiction Hne; reflexivity | reflexivity]. }
  assert (Hfs : is_empty (filter recognised children) = false).
  { destruct (filter recognised children); [contradiction | reflexivity]. }
  rewrite Hcs, Hfs, collect_conditions_filter by assumption.
  reflexivity.
Qed.

Lemma skipped_children_change_nothing_witness :
  process_group
    (group_node None [mkNode (Some "rule_group") None None None;
                      rule_node "a" "is_null" None;
                      mkNode (Some "switch_group") None None None;
                      rule_node "b" "is_null" None])
  = process_group
      (with_children1
         (group_node None [mkNode (Some "rule_group") None None None;
                           rule_node "a" "is_null" None;
                           mkNode (Some "switch_group") None None None;
                           rule_node "b" "is_null" None])
         [rule_node "a" "is_null" None; rule_node "b" "is_null" None]).
Proof.
  apply (skipped_children_change_nothing
    (group_node None [mkNode (Some "rule_group") None None None;
                      rule_node "a" "is_null" None;
                      mkNode (Some "switch_group") None None None;
                      rule_node "b" "is_null" None])
    _ eq_refl).
  - repeat constructor; discriminate.
  - discriminate.
Defined.

(** X16: a group whose children are there, each with a type, but none a
    rule or a group, compiles to the empty text, to "NOT " when negated,
    and not to "TRUE". *)
Theorem group_of_skipped_children (group : node) (children : list node) :
  children1 group = Some children ->
  children <> [] ->
  Forall has_type children ->
  filter recognised children = [] ->
  process_group group = Ok (group_prefix group).
Proof.
  intros Hc Hne Hall Hnone.
  apply (process_group_ok _ _ _ Hc Hne). split; [assumption|].
  exists []. unfold compile_to. rewrite Hnone. split; [constructor|].
  simpl. induction (group_prefix group); simpl; congruence.
Qed.

Lemma group_of_skipped_children_witness :
  process_group
    (group_node (Some (mkProperties None None None None None (Some true)))
                [mkNode (Some "rule_group") None None None])
  = Ok "NOT ".
Proof.
  apply (group_of_skipped_children
    (group_node (Some (mkProperties None None None None None (Some true)))
                [mkNode (Some "rule_group") None None None])
    _ eq_refl).
  - discriminate.
  - repeat constructor; discriminate.
  - reflexivity.
Defined.

Lemma Forall2_In_l {A B} (R : A -> B -> Prop) (l : list A) (l' : list B)
    (a : A) :
  Forall2 R l l' -> In a l -> exists b, R a b.
Proof.
  induction 1 as [|x y l l' Hxy _ IH]; simpl; [contradiction|].
  intros [<- | Hin]; [exists y; assumption | apply IH, Hin].
Qed.

(** X17: a group compiles all its children or nothing: one child with no
    type, or one rule or group that raises, anywhere in the list, makes
    the group raise. *)
Theorem group_all_or_nothing (group : node) (children : list node)
    (child : node) :
  children1 group = Some children ->
  In child children ->
  type child = None \/
    (recognised child = true /\ raises (compile_child child)) ->
  raises (process_group group).
Proof.
  intros Hc Hin Hbad.
  destruct (process_group group) as [s|e] eqn:Hg; [|eexists; reflexivity].
  exfalso.
  assert (Hne : children <> []) by (intros ->; contradiction).
  apply (process_group_ok _ _ _ Hc Hne) in Hg
    as (Hall & conds & Hconds & _).
  destruct Hbad as [Hnone | (Hrec & e & He)].
  - rewrite Forall_forall in Hall. apply (Hall child Hin Hnone).
  - assert (Hf : In child (filter recognised children))
      by (apply filter_In; auto).
    destruct (Forall2_In_l _ _ _ _ Hconds Hf) as [c Hc'].
    congruence.
Qed.

Lemma group_all_or_nothing_witness :
  raises (process_group
            (group_node None [rule_node "a" "is_null" None;
                              rule_node "b" "equal" None])).
Proof.
  apply (group_all_or_nothing
           (group_node None [rule_node "a" "is_null" None;
                             rule_node "b" "equal" None])
           _ (rule_node "b" "equal" None) eq_refl).
  - simpl. tauto.
  - right. split; [reflexivity|]. eexists. reflexivity.
Defined.

Lemma singleton_group_compiles (child : node) :
  recognised child = true ->
  process_group (singleton_group child) = compile_child child.
Proof.
  intros Hrec. rewrite process_group_eq. cbn [children1 singleton_group is_empty].
  rewrite collect_conditions_cons.
  unfold recognised in Hrec. unfold compile_child, is_rule.
  destruct (type child) as [t|]; [|discriminate]. cbn [bind subscript].
  destruct (String.eqb t "rule").
  - destruct (process_rule child); reflexivity.
  - cbn [orb] in Hrec. rewrite Hrec.
    destruct (process_group child); reflexivity.
Qed.

Lemma generate_sql_recognised (tree : node) :
  recognised tree = true -> generate_sql tree = compile_child tree.
Proof.
  unfold recognised, generate_sql, compile_child, is_rule.
  destruct (type tree) as [t|]; [|discriminate]. cbn [bind subscript].
  destruct (String.eqb t "group") eqn:Eg.
  - apply String.eqb_eq in Eg. subst t. reflexivity.
  - destruct (String.eqb t "rule"); [reflexivity | discriminate].
Qed.

(** X18: a group with no properties around one rule or group compiles to
    what that child compiles to, the same text or the same exception,
    with nothing added. *)
Theorem singleton_group_transparent (tree : node) :
  recognised tree = true ->
  generate_sql (singleton_group tree) = generate_sql tree.
Proof.
  intros Hrec. rewrite (generate_sql_recognised tree Hrec).
  rewrite (generate_sql_recognised (singleton_group tree) eq_refl).
  apply singleton_group_compiles, Hrec.
Qed.

Lemma singleton_group_transparent_witness :
  generate_sql (singleton_group (rule_node "a" "is_null" None))
  = generate_sql (rule_node "a" "is_null" None).
Proof.
  apply (singleton_group_transparent (rule_node "a" "is_null" None)).
  reflexivity.
Defined.

(** ** The parameters *)

Lemma add_param_counted (self : generator) (value : pyval) :
  counted self -> counted (fst (add_param self value)).
Proof.
  unfold counted. simpl. intros ->. rewrite length_app. simpl. lia.
Qed.

(** X19: in every state that [__init__], [add_param] and [generate_sql]
    lead to, the counter [param_index] is the number of parameters. *)
Theorem reachable_counted (self : generator) :
  reachable self -> counted self.
Proof.
  induction 1 as [flag | self value _ IH | self query_tree _ IH].
  - reflexivity.
  - apply add_param_counted, IH.
  - reflexivity.
Qed.

Lemma reachable_counted_witness :
  counted (fst (add_param (fst (generate_sql_method
                                  (fst (add_param (init true) (VInt 1)))
                                  (group_node None [])))
                          (VStr "a"))).
Proof.
  apply reachable_counted.
  apply reach_add_param, reach_generate_sql, reach_add_param, reach_init.
Defined.

Lemma add_param_spec (self : generator) (value : pyval) :
  counted self ->
  let after := fst (add_param self value) in
  let index := S (List.length (params self)) in
  params after = (params self ++ [value])%list /\
  snd (add_param self value) = placeholder index /\
  nth_error (params after) (index - 1) = Some value.
Proof.
  unfold counted, placeholder. simpl. intros Hcount.
  split; [reflexivity|]. split.
  - rewrite Hcount. do 2 f_equal. lia.
  - rewrite Nat.sub_0_r, nth_error_app2, Nat.sub_diag by lia. reflexivity.
Qed.

(** X20: from a state where the counter is the number of parameters,
    [add_param] appends the value to the parameters and returns the
    placeholder of its position, counted from 1: the parameter at that
    position is the value. *)
Theorem add_param_lookup (self : generator) (value : pyval) :
  counted self ->
  let after := fst (add_param self value) in
  let index := S (List.length (params self)) in
  params after = (params self ++ [value])%list /\
  snd (add_param self value) = placeholder index /\
  nth_error (params after) (index - 1) = Some value.
Proof. apply add_param_spec. Qed.

Lemma add_param_lookup_witness :
  params (fst (add_param (init false) (VStr "a"))) = [VStr "a"] /\
  snd (add_param (init false) (VStr "a")) = "$1" /\
  nth_error (params (fst (add_param (init false) (VStr "a")))) 0
  = Some (VStr "a").
Proof.
  apply (add_param_lookup (init false) (VStr "a")). reflexivity.
Defined.

Lemma add_params_from (values : list pyval) :
  forall self,
    counted self ->
    params (fst (add_params self values))
    = (params self ++ values)%list /\
    snd (add_params self values)
    = map placeholder (seq (S (List.length (params self)))
                           (List.length values)) /\
    counted (fst (add_params self values)).
Proof.
  induction values as [|value rest IH]; intros self Hcount.
  - simpl. rewrite app_nil_r. auto.
  - cbn [add_params].
    destruct (add_param self value) as [self1 ph] eqn:E1.
    assert (Hself1 : self1 = fst (add_param self value)) by now rewrite E1.
    assert (Hph : ph = snd (add_param self value)) by now rewrite E1.
    destruct (add_param_spec self value Hcount) as (Hparams & Hplace & _).
    rewrite <- Hself1 in Hparams. rewrite <- Hph in Hplace.
    assert (Hcount1 : counted self1)
      by (rewrite Hself1; apply add_param_counted, Hcount).
    destruct (IH self1 Hcount1) as (IHp & IHs & IHc).
    destruct (add_params self1 rest) as [self2 phs]. simpl in *.
    rewrite IHp, IHs, Hparams, Hplace, <- app_assoc, length_app.
    simpl. rewrite Nat.add_1_r. auto.
Qed.

(** X21: parameters added one after the other to a new generator are
    kept in the order of the calls, and the placeholders returned are
    $1, $2, ... in that order. *)
Theorem add_params_from_init (flag : bool) (values : list pyval) :
  params (fst (add_params (init flag) values)) = values /\
  snd (add_params (init flag) values)
  = map placeholder (seq 1 (List.length values)).
Proof.
  destruct (add_params_from values (init flag) eq_refl) as (Hp & Hs & _).
  split; assumption.
Qed.

(** ** The schema validator *)

Lemma str_int_not_empty (n : Z) : str_int n <> "".
Proof.
  unfold str_int, NilZero.string_of_int, NilZero.string_of_uint.
  destruct (Z.to_int n) as [d|d]; destruct d; discriminate.
Qed.

Lemma append_empty (a b : string) : a ++ b = "" -> a = "" /\ b = "".
Proof. destruct a; simpl; [auto | discriminate]. Qed.

(** X22: the place of a validation error is "(root level)" exactly when
    the path is empty or is the one key that is the empty string; for
    every other path it is "at path" and, in quotes, the elements of the
    path, a slash between two of them. *)
Theorem error_place_root (absolute_path : list validate_json.path_item) :
  (validate_json.error_place absolute_path = "(root level)" <->
   absolute_path = [] \/ absolute_path = [validate_json.Key ""]) /\
  (absolute_path <> [] ->
   absolute_path <> [validate_json.Key ""] ->
   validate_json.error_place absolute_path
   = "at path '"
     ++ separated "/" (map validate_json.str_item absolute_path) ++ "'").
Proof.
  assert (Hempty :
            str_join "/" (map validate_json.str_item absolute_path) = "" ->
            absolute_path = [] \/ absolute_path = [validate_json.Key ""]).
  { intros E. destruct absolute_path as [|p [|q rest]]; [auto | |].
    - right. simpl in E. destruct p as [name | i]; simpl in E.
      + now subst name.
      + now apply str_int_not_empty in E.
    - exfalso. unfold str_join in E. simpl in E.
      apply append_empty in E as [_ E]. discriminate. }
  unfold validate_json.error_place. split; [split|].
  - destruct (String.eqb _ "") eqn:E; [|discriminate].
    intros _. apply String.eqb_eq in E. apply Hempty, E.
  - intros [-> | ->]; reflexivity.
  - intros Hne Hkey.
    destruct (String.eqb _ "") eqn:E.
    + apply String.eqb_eq in E. destruct (Hempty E); contradiction.
    + now rewrite str_join_separated.
Qed.

Lemma error_place_root_witness :
  validate_json.error_place [validate_json.Key ""] = "(root level)" /\
  validate_json.error_place
    [validate_json.Key "children1"; validate_json.Index 0;
     validate_json.Key "type"]
  = "at path 'children1/0/type'".
Proof.
  split.
  - apply (proj2 (proj1 (error_place_root [validate_json.Key ""]))).
    right. reflexivity.
  - apply (proj2 (error_place_root
                    [validate_json.Key "children1"; validate_json.Index 0;
                     validate_json.Key "type"])); discriminate.
Defined.

Lemma validate_files_counts {document}
    (read : string -> validate_json.file_read document)
    (validate : document -> validate_json.validation)
    (json_files : list string) :
  forall valid_count error_count log,
    let passed :=
      List.length (filter (validate_json.passes read validate) json_files) in
    let out := validate_json.validate_files read validate json_files
                 valid_count error_count log in
    snd out = (valid_count + passed,
               error_count + (List.length json_files - passed)) /\
    exists records,
      fst out = (log ++ records)%list /\
      List.length records = 2 * List.length json_files.
Proof.
  induction json_files as [|file_path rest IH];
    intros valid_count error_count log.
  - simpl. rewrite !Nat.add_0_r. split; [reflexivity|].
    exists []. now rewrite app_nil_r.
  - pose proof (filter_length_le (validate_json.passes read validate) rest)
      as Hle.
    cbn [validate_json.validate_files filter].
    assert (Hpass : validate_json.passes read validate file_path
                    = match read file_path with
                      | validate_json.Parsed json_data =>
                          match validate json_data with
                          | validate_json.Valid => true
                          | _ => false
                          end
                      | _ => false
                      end) by reflexivity.
    unfold validate_json.load_json_file,
      validate_json.validate_json_against_schema.
    destruct (read file_path) as [json_data | text | text];
      [destruct (validate json_data) as [ | path message | text] | |];
      rewrite Hpass;
      match goal with
      | |- context [validate_json.validate_files read validate rest
                      ?v ?e ?l] =>
          destruct (IH v e l) as (Hcounts & records & Hlog & Hlen)
      end;
      cbn zeta in *; rewrite Hcounts, Hlog;
      (split; [cbn [List.length]; f_equal; lia|]);
      eexists; rewrite <- !app_assoc;
      (split; [reflexivity|]); rewrite !length_app; simpl; lia.
Qed.

(** X23: the loop of [main] counts every file once: the valid count is
    the number of files that are read and are valid for the schema, the
    error count the number of the others, whether they failed to load or
    to validate; and the loop logs two records for each file. *)
Theorem validate_files_accounts {document}
    (read : string -> validate_json.file_read document)
    (validate : document -> validate_json.validation)
    (json_files : list string) (log : list validate_json.log_record) :
  let passed :=
    List.length (filter (validate_json.passes read validate) json_files) in
  let out := validate_json.validate_files read validate json_files 0 0 log in
  snd out = (passed, List.length json_files - passed) /\
  fst (snd out) + snd (snd out) = List.length json_files /\
  exists records,
    fst out = (log ++ records)%list /\
    List.length records = 2 * List.length json_files.
Proof.
  pose proof (filter_length_le (validate_json.passes read validate)
                               json_files) as Hle.
  destruct (validate_files_counts read validate json_files 0 0 log)
    as (Hcounts & Hlog).
  cbn zeta in *. simpl in Hcounts. rewrite Hcounts.
  split; [reflexivity|]. split; [simpl; lia | exact Hlog].
Qed.

(** X24: when the schema loads and files are found, [main] ends its log
    with the summary, whose counts are the number of files that are read
    and valid and the number of the others; between the record of the
    number of files and the summary stand two records for each file. *)
Theorem main_summary {document}
    (read : string -> validate_json.file_read document)
    (validate : document -> document -> validate_json.validation)
    (get_json_files : string -> list string)
    (source_path schema_path : string) (schema : document) :
  read schema_path = validate_json.Parsed schema ->
  get_json_files source_path <> [] ->
  let json_files := get_json_files source_path in
  let passed :=
    List.length (filter (validate_json.passes read (validate schema))
                        json_files) in
  exists records,
    validate_json.main read validate get_json_files source_path schema_path
    = ([validate_json.INFO "Starting JSON validation";
        validate_json.INFO ("Source path: " ++ source_path);
        validate_json.INFO ("Schema path: " ++ schema_path);
        validate_json.INFO ("Successfully loaded schema from " ++ schema_path);
        validate_json.INFO
          ("Found " ++ str_int (Z.of_nat (List.length json_files))
           ++ " JSON file(s) to validate")]
       ++ records
       ++ [validate_json.summary passed (List.length json_files - passed)])
      %list /\
    List.length records = 2 * List.length json_files.
Proof.
  intros Hschema Hfiles. cbn zeta.
  unfold validate_json.main, validate_json.load_json_file.
  rewrite Hschema. cbn zeta.
  destruct (is_empty (get_json_files source_path)) eqn:Eempty.
  { destruct (get_json_files source_path); [contradiction | discriminate]. }
  match goal with
  | |- context [validate_json.validate_files read ?v ?files 0 0 ?l] =>
      destruct (validate_files_counts read v files 0 0 l)
        as (Hcounts & records & Hlog & Hlen);
      destruct (validate_json.validate_files read v files 0 0 l)
        as [log' [valid_count error_count]]
  end.
  cbn [fst snd] in Hcounts, Hlog. injection Hcounts as -> ->. subst log'.
  exists records. split; [|exact Hlen].
  rewrite <- !app_assoc. reflexivity.
Qed.

Lemma main_summary_witness :
  exists records,
    validate_json.main
      (fun path => if String.eqb path "schema.json"
                   then validate_json.Parsed 0
                   else if String.eqb path "a.json"
                        then validate_json.Parsed 1
                        else validate_json.JSONDecodeError "Expecting value")
      (fun schema json_data => validate_json.Valid)
      (fun source_path => ["a.json"; "b.json"])
      "*.json" "schema.json"
    = ([validate_json.INFO "Starting JSON validation";
        validate_json.INFO "Source path: *.json";
        validate_json.INFO "Schema path: schema.json";
        validate_json.INFO "Successfully loaded schema from schema.json";
        validate_json.INFO "Found 2 JSON file(s) to validate"]
       ++ records ++ [validate_json.summary 1 1])%list /\
    List.length records = 4.
Proof.
  apply (main_summary
    (fun path => if String.eqb path "schema.json"
                 then validate_json.Parsed 0
                 else if String.eqb path "a.json"
                      then validate_json.Parsed 1
                      else validate_json.JSONDecodeError "Expecting value")
    (fun schema json_data => validate_json.Valid)
    (fun source_path => ["a.json"; "b.json"])
    "*.json" "schema.json" 0 eq_refl).
  discriminate.
Defined.
